(** * Request-scoped structured logging (pino-nestjs): a shallow embedding

    The development follows the TypeScript sources of [libs/pino-nestjs]:

    - [Logger.ts]            the message normalizer ([Logger.call]);
    - [storage.ts]           the [Store] class and the async-local [storage];
    - [PinoLogger.ts]        the context-resolving facade;
    - [InjectPinoLogger.ts]  the registry of decorated logger labels;
    - [params.ts]            the configuration record and [isPassedLogger];
    - [LoggerModule.ts]      the middleware that binds a [Store] per request.

    JavaScript values are modelled by the inductive type [value]; objects
    used as dictionaries are finite maps from property names to values.
    Strings are UTF-8 text: a character of the basic plane is the
    sequence of its one, two or three bytes. *)

From Stdlib Require Import ZArith String Ascii List ZifyBool.
From stdpp Require Import gmap strings list fin_maps pretty.

Set Warnings "-register-all".
Open Scope string_scope.

(* ===================================================================== *)
(** ** JavaScript values *)
(* ===================================================================== *)

Module JS.

(** The values passed to logging calls.  Numbers are the integer-valued
    ones; functions, symbols and big integers are left out.  An [Error]
    instance carries its [message] and its [stack]; the [stack] is a value
    because the code assigns to it. *)
Inductive value : Type :=
| VUndefined
| VNull
| VBool (b : bool)
| VNum (n : Z)
| VStr (s : string)
| VObj (fields : gmap string value)
| VArr (items : list value)
| VErr (message : string) (stack : value).

(** The result of [typeof]. *)
Inductive jstype := TUndefined | TObject | TBoolean | TNumber | TString.

Definition typeof (v : value) : jstype :=
  match v with
  | VUndefined => TUndefined
  | VNull | VObj _ | VArr _ | VErr _ _ => TObject
  | VBool _ => TBoolean
  | VNum _ => TNumber
  | VStr _ => TString
  end.

Definition isTypeObject (v : value) : bool :=
  match typeof v with TObject => true | _ => false end.

Definition isTypeString (v : value) : bool :=
  match typeof v with TString => true | _ => false end.

(** [v instanceof Error] *)
Definition instanceofError (v : value) : bool :=
  match v with VErr _ _ => true | _ => false end.

(** [e.message] of an [Error] instance. *)
Definition messageOf (e : value) : string :=
  match e with VErr m _ => m | _ => "" end.

(** [v !== undefined] *)
Definition isDefined (v : value) : bool :=
  match v with VUndefined => false | _ => true end.


(** [String(v)].  Array elements that are [null] or [undefined] print as
    the empty string.  A number prints as its decimal digits: this is
    what the engine prints for the safe integers; a larger number prints
    with fewer significant digits, and in exponent notation from [1e21]
    on, so what is stated about the text of a number is stated for the
    safe integers. *)
Fixpoint ToString (v : value) : string :=
  match v with
  | VUndefined => "undefined"
  | VNull => "null"
  | VBool true => "true"
  | VBool false => "false"
  | VNum n => pretty n
  | VStr s => s
  | VObj _ => "[object Object]"
  | VArr items =>
      String.concat ","
        (map (fun x => match x with
                       | VUndefined | VNull => ""
                       | _ => ToString x
                       end) items)
  | VErr m _ => if String.eqb m "" then "Error" else "Error: " ++ m
  end.

(** The property map [{0: x0, 1: x1, ...}] of an array-like. *)
Definition indexed (items : list value) : gmap string value :=
  list_to_map (imap (fun (i : nat) x => (pretty i, x)) items).

(** The elements of a string seen as an array-like, for the strings of
    one-byte characters.  The library copies the properties of values of
    type object only, never those of a string. *)
Definition chars (s : string) : list value :=
  map (fun c => VStr (String c EmptyString)) (list_ascii_of_string s).

(** The own enumerable properties of a value, as copied by [Object.assign]
    and by object spread.  [message] and [stack] of an [Error] are not
    enumerable. *)
Definition ownProps (v : value) : gmap string value :=
  match v with
  | VObj fields => fields
  | VArr items => indexed items
  | VStr s => indexed (chars s)
  | _ => ∅
  end.

(** [Object.assign(target, source)] and [{...target, ...source}]: the
    properties of [source] win. *)
Definition Object_assign (target : gmap string value) (source : value)
  : gmap string value :=
  ownProps source ∪ target.

(** [array.slice(0, -1)] *)
Definition slice_0_m1 (l : list value) : list value := removelast l.

(** [array.slice(1)] *)
Definition slice_1 (l : list value) : list value := tail l.

(** [array[0]] *)
Definition first (l : list value) : value := nth 0 l VUndefined.

(** [new Error(message)] followed by [err.stack = stack]: the message of
    the new exception is [String(message)], or empty when [message] is
    [undefined]; the stack made by the engine is overwritten. *)
Definition newErrorWithStack (message stack : value) : value :=
  VErr (match message with VUndefined => "" | _ => ToString message end)
       stack.

End JS.

(* ===================================================================== *)
(** ** radashi helpers used by [Logger.ts] *)
(* ===================================================================== *)

Module Radashi.
Import JS.

(** [last(array)]: the last element, [undefined] for the empty array. *)
Definition last (l : list value) : value := List.last l VUndefined.

(** [isObject(value)]: a plain object (tag [[object Object]]); arrays,
    [null] and [Error] instances are not. *)
Definition isObject (v : value) : bool :=
  match v with VObj _ => true | _ => false end.

End Radashi.

(* ===================================================================== *)
(** ** Regular expressions of [Logger.ts] *)
(* ===================================================================== *)

Module Regex.

Definition isPlaceholderLetter (c : ascii) : bool :=
  Ascii.eqb c "s" || Ascii.eqb c "d" || Ascii.eqb c "j" || Ascii.eqb c "o".

(** [(message.match(/%[sdjo]/g) || []).length]: the matches are found
    left to right and do not overlap. *)
Fixpoint numPlaceholders (s : string) : nat :=
  match s with
  | EmptyString => 0
  | String c rest =>
      match rest with
      | String c' rest' =>
          if Ascii.eqb c "%" && isPlaceholderLetter c'
          then S (numPlaceholders rest')
          else numPlaceholders rest
      | EmptyString => 0
      end
  end.

Definition byte (c : ascii) : nat := nat_of_ascii c.

(** The class [\s] of ECMAScript, by the length of the character's
    encoding.  One byte: U+0009 to U+000D and U+0020. *)
Definition isSpace1 (c : ascii) : bool :=
  (Nat.leb 9 (byte c) && Nat.leb (byte c) 13) || Nat.eqb (byte c) 32.

(** Two bytes: U+00A0 ([C2 A0]). *)
Definition isSpace2 (c d : ascii) : bool :=
  Nat.eqb (byte c) 194 && Nat.eqb (byte d) 160.

(** Three bytes: U+1680 ([E1 9A 80]); U+2000 to U+200A, U+2028, U+2029
    and U+202F ([E2 80 80] to [E2 80 8A], [E2 80 A8], [E2 80 A9],
    [E2 80 AF]); U+205F ([E2 81 9F]); U+3000 ([E3 80 80]); U+FEFF
    ([EF BB BF]). *)
Definition isSpace3 (c d e : ascii) : bool :=
  (Nat.eqb (byte c) 225 && Nat.eqb (byte d) 154 && Nat.eqb (byte e) 128)
  || (Nat.eqb (byte c) 226 && Nat.eqb (byte d) 128
      && ((Nat.leb 128 (byte e) && Nat.leb (byte e) 138)
          || Nat.eqb (byte e) 168 || Nat.eqb (byte e) 169
          || Nat.eqb (byte e) 175))
  || (Nat.eqb (byte c) 226 && Nat.eqb (byte d) 129 && Nat.eqb (byte e) 159)
  || (Nat.eqb (byte c) 227 && Nat.eqb (byte d) 128 && Nat.eqb (byte e) 128)
  || (Nat.eqb (byte c) 239 && Nat.eqb (byte d) 187 && Nat.eqb (byte e) 191).

(** [\s*] is greedy, and what follows it in [Logger.ts] starts with a
    letter: the longest run of white space is the only one to try. *)
Fixpoint skipSpaces (s : string) : string :=
  match s with
  | String c rest =>
      if isSpace1 c then skipSpaces rest
      else
        match rest with
        | String d rest2 =>
            if isSpace2 c d then skipSpaces rest2
            else
              match rest2 with
              | String e rest3 =>
                  if isSpace3 c d e then skipSpaces rest3 else s
              | EmptyString => s
              end
        | EmptyString => s
        end
  | EmptyString => s
  end.

Definition newline : ascii := "010"%char.

(** [/\n\s*at /.test(s)] *)
Fixpoint testStack (s : string) : bool :=
  match s with
  | EmptyString => false
  | String c rest =>
      (Ascii.eqb c newline && String.prefix "at " (skipSpaces rest))
      || testStack rest
  end.

End Regex.

(* ===================================================================== *)
(** ** [params.ts] *)
(* ===================================================================== *)

(** pino log levels. *)
Module Level.
Inductive t := trace | debug | info | warn | error | fatal.
End Level.

(** References to pino logger objects and to [Store] objects. *)
Abbreviation loc := nat (only parsing).

Module Params.

(** An optional property of an options object: the key may be absent, or
    present with a value that may itself be [undefined]. *)
Inductive prop (A : Type) :=
| Absent
| Present (v : option A).
Arguments Absent {A}.
Arguments Present {A} v.

(** [key in obj] *)
Definition hasKey {A} (p : prop A) : bool :=
  match p with Absent => false | Present _ => true end.

(** [obj.key], [None] standing for [undefined]. *)
Definition get {A} (p : prop A) : option A :=
  match p with Absent => None | Present v => v end.

Record CustomAttributeKeys := { err : option string }.

(** The properties of pino-http's [Options] that the library reads. *)
Record Options := {
  logger : prop loc;
  stream : prop nat;
  customAttributeKeys : prop CustomAttributeKeys;
}.

(** [Options | DestinationStream | [Options, DestinationStream]], or
    omitted. *)
Inductive PinoHttp :=
| PHOmitted
| PHOptions (o : Options)
| PHStream (s : nat)
| PHArray (o : Options) (s : nat).

Record Params := {
  pinoHttp : PinoHttp;
  useExisting : bool;
  renameContext : option string;
  assignResponse : bool;
}.

(** [!!pinoHttpProp && 'logger' in pinoHttpProp] *)
Definition isPassedLogger (p : PinoHttp) : bool :=
  match p with
  | PHOptions o => hasKey (logger o)
  | _ => false
  end.

(** [renameContext || 'context'] *)
Definition contextNameOf (p : Params) : string :=
  match renameContext p with
  | Some s => if String.eqb s "" then "context" else s
  | None => "context"
  end.

End Params.

(* ===================================================================== *)
(** ** [Logger.ts]: the message normalizer *)
(* ===================================================================== *)

Module Logger.
Import JS.

(** [isInterpolated(message, objIndex)] *)
Definition isInterpolated (message : value) (objIndex : option Z) : bool :=
  match message with
  | VStr s =>
      let numPlaceholders := Z.of_nat (Regex.numPlaceholders s) in
      match objIndex with
      | Some i => (i <? numPlaceholders)%Z
      | None => (0 <? numPlaceholders)%Z
      end
  | _ => false
  end.

(** [isWrongExceptionsHandlerContract(level, message, params)] *)
Definition isWrongExceptionsHandlerContract
    (level : Level.t) (message : value) (params : list value) : bool :=
  match level with Level.error => true | _ => false end
  && isTypeString message
  && Nat.eqb (length params) 1
  && match first params with
     | VStr s => Regex.testStack s
     | _ => false
     end.

(** Step 1 of [call]: the trailing context.  Returns [mergingObject] and
    [optionalParamsWithoutContext]. *)
Definition extractContext (contextName : string) (optionalParams : list value)
  : gmap string value * list value :=
  let contextOrUndefined := Radashi.last optionalParams in
  if isDefined contextOrUndefined
  then (<[contextName := contextOrUndefined]> ∅, slice_0_m1 optionalParams)
  else (∅, []).

(** Step 2 of [call]: merge the trailing object or keep it for
    interpolation.  Returns [mergingObject] and [interpolationValues]. *)
Definition mergeOrInterpolate (message : value)
    (mergingObject : gmap string value)
    (optionalParamsWithoutContext : list value)
  : gmap string value * list value :=
  let maybeMergingObject := Radashi.last optionalParamsWithoutContext in
  if Radashi.isObject maybeMergingObject
     && negb (isInterpolated message
                (Some (Z.of_nat (length optionalParamsWithoutContext) - 1)%Z))
  then (Object_assign mergingObject maybeMergingObject,
        slice_0_m1 optionalParamsWithoutContext)
  else (mergingObject, optionalParamsWithoutContext).

(** [message.message || 'Error'] *)
Definition messageOrError (m : string) : string :=
  if String.eqb m "" then "Error" else m.

(** Steps 3 to 6 of [call], the guard clauses: the argument list handed
    to [this.logger[level]]. *)
Definition dispatch (level : Level.t) (message : value)
    (mergingObject : gmap string value)
    (optionalParamsWithoutContext interpolationValues : list value)
  : list value :=
  if instanceofError message
  then
    VObj (<["err" := message]> mergingObject)
      :: VStr (messageOrError (messageOf message)) :: interpolationValues
  else if isWrongExceptionsHandlerContract level message
            optionalParamsWithoutContext
  then
    let err := newErrorWithStack message
                 (first optionalParamsWithoutContext) in
    [VObj (<["err" := err]> mergingObject)]
  else if isTypeObject message
  then VObj (Object_assign mergingObject message)
         :: VUndefined :: interpolationValues
  else VObj mergingObject :: VStr (ToString message) :: interpolationValues.

(** [call(level, message, ...optionalParams)] *)
Definition call (contextName : string) (level : Level.t) (message : value)
    (optionalParams : list value) : list value :=
  let '(mergingObject0, optionalParamsWithoutContext) :=
    extractContext contextName optionalParams in
  let '(mergingObject, interpolationValues) :=
    mergeOrInterpolate message mergingObject0 optionalParamsWithoutContext in
  dispatch level message mergingObject optionalParamsWithoutContext
    interpolationValues.

End Logger.

(* ===================================================================== *)
(** ** [storage.ts] and the pino logger objects *)
(* ===================================================================== *)

Module Storage.
Import JS.

(** [class Store]: the request logger and the optional response logger,
    both references to pino logger objects. *)
Record Store := {
  logger : loc;
  responseLogger : option loc;
}.

(** One call of a pino log method. *)
Record Emission := {
  em_logger : loc;
  em_level : Level.t;
  em_args : list value;
}.

(** How a pino logger object was made: by [pino(...)] or by the
    application, or by [parent.child(fields)]. *)
Inductive Origin :=
| Root
| ChildOf (parent : loc) (fields : gmap string value).

(** A pino logger object, as far as the library drives it: how it was
    made, and the arguments of the [setBindings] calls made on it, oldest
    first.  Which of these fields pino then prints, and how, is decided
    inside pino (it leaves out a field whose value is [undefined] and the
    keys [level], [serializers], [formatters] and [customLevels], and
    passes the others through the serializers and formatters of the
    logger); the library does not look at it. *)
Record LoggerObject := {
  origin : Origin;
  bindingsSet : list (gmap string value);
}.

(** The mutable world of the library: the pino logger objects, the
    [Store] objects, the store that [storage] holds for the running
    asynchronous context, the module variable [outOfContext], and the
    calls made on pino loggers so far (oldest first). *)
Record State := {
  loggers : gmap loc LoggerObject;
  stores : gmap loc Store;
  current : option loc;
  outOfContext : option loc;
  emitted : list Emission;
}.

Definition initial : State :=
  {| loggers := ∅; stores := ∅; current := None;
     outOfContext := None; emitted := [] |}.

Inductive exn :=
| Error (message : string)
| TypeError (message : string).

Inductive Result (A : Type) :=
| Ok (a : A)
| Throw (e : exn).
Arguments Ok {A} a.
Arguments Throw {A} e.

(** Computations that read and write the world and may throw. *)
Definition M (A : Type) : Type := State → Result A * State.

Definition ret {A} (a : A) : M A := fun st => (Ok a, st).
Definition throw {A} (e : exn) : M A := fun st => (Throw e, st).
Definition bind {A B} (m : M A) (k : A → M B) : M B :=
  fun st =>
    match m st with
    | (Ok a, st') => k a st'
    | (Throw e, st') => (Throw e, st')
    end.

Notation "'let!' x ':=' m 'in' k" := (bind m (fun x => k))
  (at level 10, x name, m at level 100, k at level 200).

Definition setLoggers (f : gmap loc LoggerObject) (st : State) : State :=
  {| loggers := f; stores := stores st; current := current st;
     outOfContext := outOfContext st; emitted := emitted st |}.

Definition setStores (s : gmap loc Store) (st : State) : State :=
  {| loggers := loggers st; stores := s; current := current st;
     outOfContext := outOfContext st; emitted := emitted st |}.

Definition setCurrent (c : option loc) (st : State) : State :=
  {| loggers := loggers st; stores := stores st; current := c;
     outOfContext := outOfContext st; emitted := emitted st |}.

Definition setOutOfContext (o : option loc) (st : State) : State :=
  {| loggers := loggers st; stores := stores st; current := current st;
     outOfContext := o; emitted := emitted st |}.

(** A logger object on which [setBindings] was not called yet. *)
Definition newLogger (o : Origin) : LoggerObject :=
  {| origin := o; bindingsSet := [] |}.

(** [pino(...)]: a new root logger. *)
Definition pino : M loc := fun st =>
  let l := fresh (dom (loggers st)) in
  (Ok l, setLoggers (<[l := newLogger Root]> (loggers st)) st).

(** [parent.child(fields)]: a new logger object derived from [parent]
    with [fields]; the parent is left as it is. *)
Definition child (parent : loc) (fields : gmap string value) : M loc :=
  fun st =>
    let l := fresh (dom (loggers st)) in
    (Ok l,
     setLoggers (<[l := newLogger (ChildOf parent fields)]> (loggers st)) st).

(** [l.setBindings(fields)]: one more call on the logger object [l]
    itself. *)
Definition addBindings (fields : gmap string value) (o : LoggerObject)
  : LoggerObject :=
  {| origin := origin o; bindingsSet := bindingsSet o ++ [fields] |}.

Definition setBindings (l : loc) (fields : gmap string value) : M unit :=
  fun st => (Ok tt, setLoggers (alter (addBindings fields) l (loggers st)) st).

(** [l[level](...args)] *)
Definition log (l : loc) (level : Level.t) (args : list value) : M unit :=
  fun st =>
    (Ok tt,
     {| loggers := loggers st; stores := stores st; current := current st;
        outOfContext := outOfContext st;
        emitted := emitted st ++
                   [{| em_logger := l; em_level := level; em_args := args |}] |}).

(** [storage.getStore()]: the reference of the active store and the
    object behind it. *)
Definition getStore (st : State) : option (loc * Store) :=
  sid ← current st; s ← stores st !! sid; Some (sid, s).

(** [new Store(log, resLog)] *)
Definition newStore (log : loc) (resLog : option loc) : M loc := fun st =>
  let sid := fresh (dom (stores st)) in
  (Ok sid,
   setStores (<[sid := {| logger := log; responseLogger := resLog |}]>
                (stores st)) st).

(** [storage.run(store, next)], for the synchronous part of [next]: the
    store is the active one while [next] runs and the previous one is
    active again afterwards. *)
Definition run {A} (sid : loc) (next : M A) : M A := fun st =>
  let previous := current st in
  let '(r, st') := next (setCurrent (Some sid) st) in
  (r, setCurrent previous st').

End Storage.

(* ===================================================================== *)
(** ** [PinoLogger.ts]: the context-resolving facade *)
(* ===================================================================== *)

Module PinoLogger.
Import JS Storage.

(** The fields of an instance. *)
Record t := {
  context : string;
  contextName : string;
  errorKey : string;
}.

(** The [errorKey] chosen by the constructor. *)
Definition errorKeyOf (p : Params.PinoHttp) : string :=
  match p with
  | Params.PHOptions o =>
      if Params.hasKey (Params.customAttributeKeys o)
      then match Params.get (Params.customAttributeKeys o) with
           | Some keys => default "err" (Params.err keys)
           | None => "err"
           end
      else "err"
  | _ => "err"
  end.

(** [Array.isArray(pinoHttp)] *)
Definition isArray (p : Params.PinoHttp) : bool :=
  match p with Params.PHArray _ _ => true | _ => false end.

(** [pinoHttp.logger] *)
Definition passedLogger (p : Params.PinoHttp) : option loc :=
  match p with
  | Params.PHOptions o => Params.get (Params.logger o)
  | _ => None
  end.

(** [typeof pinoHttp === 'object' && 'stream' in pinoHttp &&
    typeof pinoHttp.stream !== 'undefined'] *)
Definition hasStream (p : Params.PinoHttp) : bool :=
  match p with
  | Params.PHOptions o =>
      Params.hasKey (Params.stream o)
      && bool_decide (is_Some (Params.get (Params.stream o)))
  | _ => false
  end.

(** [outOfContext = pino(...)] *)
Definition setFromPino : M unit :=
  let! l := pino in
  fun st => (Ok tt, setOutOfContext (Some l) st).

(** The initialisation of [outOfContext] by the constructor, done when it
    is not set yet. *)
Definition initOutOfContext (p : Params.PinoHttp) : M unit := fun st =>
  if bool_decide (is_Some (outOfContext st))
  then (Ok tt, st)
  else if isArray p then setFromPino st
  else if Params.isPassedLogger p
  then (Ok tt, setOutOfContext (passedLogger p) st)
  else if hasStream p then setFromPino st
  else setFromPino st.

(** [new PinoLogger(params)] *)
Definition constructor (p : Params.Params) : M t :=
  let! _ := initOutOfContext (Params.pinoHttp p) in
  ret {| context := "";
         contextName := Params.contextNameOf p;
         errorKey := errorKeyOf (Params.pinoHttp p) |}.

(** [get logger()]: [storage.getStore()?.logger || outOfContext!] *)
Definition logger (st : State) : option loc :=
  match getStore st with
  | Some (_, s) => Some (Storage.logger s)
  | None => outOfContext st
  end.

(** [setContext(value)] *)
Definition setContext (value : string) (this : t) : t :=
  {| context := value;
     contextName := contextName this;
     errorKey := errorKey this |}.

(** [isFirstArgObject(args)] *)
Definition isFirstArgObject (args : list value) : bool :=
  isTypeObject (first args).

(** The rewriting of [args] at the start of [call]. *)
Definition labelArgs (this : t) (args : list value) : list value :=
  if negb (String.eqb (context this) "")
  then
    if isFirstArgObject args
    then
      let firstArg := first args in
      if instanceofError firstArg
      then
        VObj (Object_assign {[ contextName this := VStr (context this) ]}
                (VObj {[ errorKey this := firstArg ]}))
          :: slice_1 args
      else
        VObj (Object_assign {[ contextName this := VStr (context this) ]}
                firstArg)
          :: slice_1 args
    else VObj {[ contextName this := VStr (context this) ]} :: args
  else args.

(** [call(method, ...args)]: calling a method of [undefined] is a
    [TypeError]. *)
Definition call (this : t) (method : Level.t) (args : list value) : M unit :=
  fun st =>
    match logger st with
    | Some l => log l method (labelArgs this args) st
    | None =>
        throw (TypeError "Cannot read properties of undefined") st
    end.

(** [store.logger = l], on the store object referenced by [sid]. *)
Definition setStoreLogger (sid : loc) (store : Store) (l : loc) : M unit :=
  fun st =>
    (Ok tt,
     setStores
       (<[sid := {| Storage.logger := l;
                    responseLogger := responseLogger store |}]> (stores st))
       st).

(** [assign(fields)] *)
Definition assign (fields : gmap string value) : M unit := fun st =>
  match getStore st with
  | None =>
      throw (Error
        "PinoLogger: unable to assign extra fields out of request scope") st
  | Some (sid, store) =>
      (let! l := child (Storage.logger store) fields in
       let! _ := setStoreLogger sid store l in
       match responseLogger store with
       | Some r => setBindings r fields
       | None => ret tt
       end) st
  end.

End PinoLogger.

(* ===================================================================== *)
(** ** [InjectPinoLogger.ts]: the registry of decorated labels *)
(* ===================================================================== *)

Module InjectPinoLogger.

Definition decoratedTokenPrefix : string := "PinoLogger:".

(** [Set<string>]: the members in insertion order, each once. *)
Abbreviation StringSet := (list string) (only parsing).

(** [set.add(x)] *)
Definition Set_add (x : string) (s : StringSet) : StringSet :=
  if decide (x ∈ s) then s else s ++ [x].

(** [getLoggerToken(context)] *)
Definition getLoggerToken (context : string) : string :=
  decoratedTokenPrefix ++ context.

(** [InjectPinoLogger(context = '')]: the token given to [Inject] and the
    new content of [decoratedLoggers]. *)
Definition InjectPinoLogger (context : option string)
    (decoratedLoggers : StringSet) : string * StringSet :=
  let context := default "" context in
  (getLoggerToken context, Set_add context decoratedLoggers).

Record Provider := {
  provide : string;
  useFactory : PinoLogger.t → PinoLogger.t;
}.

(** [createDecoratedLoggerProvider(context)] *)
Definition createDecoratedLoggerProvider (context : string) : Provider :=
  {| provide := getLoggerToken context;
     useFactory := fun logger => PinoLogger.setContext context logger |}.

(** [createProvidersForDecorated()] *)
Definition createProvidersForDecorated (decoratedLoggers : StringSet)
  : list Provider :=
  map createDecoratedLoggerProvider decoratedLoggers.

End InjectPinoLogger.

(* ===================================================================== *)
(** ** [LoggerModule.ts]: binding a [Store] to a request *)
(* ===================================================================== *)

Module LoggerModule.
Import Storage.

(** What pino-http leaves on the request and on the response. *)
Record Logged := {
  log : loc;
  allLogs : option (list loc);
}.

(** The [Store] that [bindLoggerMiddleware] builds.  [l[l.length - 1]!]
    is [List.last]; the result is [None] when the asserted request
    logger does not exist. *)
Definition storeFor (useExisting assignResponse : bool) (req res : Logged)
  : option (loc * option loc) :=
  let log0 := Some (log req) in
  let resLog0 := if assignResponse then Some (log res) else None in
  let log1 :=
    match allLogs req with
    | Some l => if negb useExisting then last l else log0
    | None => log0
    end in
  let resLog1 :=
    match allLogs res with
    | Some l => if assignResponse && negb useExisting then last l else resLog0
    | None => resLog0
    end in
  match log1 with
  | Some l => Some (l, resLog1)
  | None => None
  end.

(** [bindLoggerMiddleware(req, res, next)]: a new [Store] is made and
    [next] runs with it as the active store.  The result is [None] in the
    case that the non-null assertion on the request logger excludes. *)
Definition bindLoggerMiddleware {A} (useExisting assignResponse : bool)
    (req res : Logged) (next : M A) : option (M A) :=
  match storeFor useExisting assignResponse req res with
  | Some (l, resLog) =>
      Some (bind (newStore l resLog) (fun sid => run sid next))
  | None => None
  end.

End LoggerModule.

(* ===================================================================== *)
(** ** [Logger.ts]: the six severity methods *)
(* ===================================================================== *)

Module LoggerService.
Import JS Storage.

(** The fields of a [Logger] instance. *)
Record t := {
  logger : PinoLogger.t;
  contextName : string;
}.

Definition constructor (logger : PinoLogger.t) (p : Params.Params) : t :=
  {| logger := logger; contextName := Params.contextNameOf p |}.

(** [this.call(level, message, ...optionalParams)] with its effect: the
    normalized arguments go to the method [level] of the facade. *)
Definition call (this : t) (level : Level.t) (message : value)
    (optionalParams : list value) : M unit :=
  PinoLogger.call (logger this) level
    (Logger.call (contextName this) level message optionalParams).

Definition verbose this message optionalParams :=
  call this Level.trace message optionalParams.
Definition debug this message optionalParams :=
  call this Level.debug message optionalParams.
Definition log this message optionalParams :=
  call this Level.info message optionalParams.
Definition warn this message optionalParams :=
  call this Level.warn message optionalParams.
Definition error this message optionalParams :=
  call this Level.error message optionalParams.
Definition fatal this message optionalParams :=
  call this Level.fatal message optionalParams.

End LoggerService.

(* ===================================================================== *)
(** ** [LoggerErrorInterceptor.ts] *)
(* ===================================================================== *)

Module LoggerErrorInterceptor.
Import JS.

(** The raw response that a Fastify reply wraps, and the response object
    that [getResponse()] returns: [raw] is [None] when the property is
    [undefined]; [err] is [undefined] until something is assigned. *)
Record Raw := { raw_err : value }.

Record Response := {
  raw : option Raw;
  err : value;
}.

(** What the handler's stream ends with: a value or an error. *)
Inductive Outcome (A : Type) :=
| Completed (a : A)
| Failed (error : value).
Arguments Completed {A} a.
Arguments Failed {A} error.

(** The body of the function given to [throwError]: the response after
    the assignment, the returned error being [error] itself. *)
Definition attach (response : Response) (error : value) : Response :=
  match raw response with
  | Some _ => {| raw := Some {| raw_err := error |}; err := err response |}
  | None => {| raw := None; err := error |}
  end.

(** [intercept(context, next)]: [next.handle().pipe(catchError(...))] *)
Definition intercept {A} (response : Response) (handled : Outcome A)
  : Outcome A * Response :=
  match handled with
  | Completed a => (Completed a, response)
  | Failed error => (Failed error, attach response error)
  end.

End LoggerErrorInterceptor.

(* ===================================================================== *)
(** ** [apps/web/src/services/api.ts] *)
(* ===================================================================== *)

Module WebApi.
Import JS.

(** The end of an awaited call: a value, or a thrown value. *)
Inductive Completion (A : Type) :=
| Normal (a : A)
| Thrown (e : value).
Arguments Normal {A} a.
Arguments Thrown {A} e.

(** What the code reads of a [fetch] response. *)
Record HttpResponse := {
  ok : bool;
  status : Z;
  text : Completion string;
}.

(** [ApiResponse<T>]: [None] for a property that is not set. *)
Record ApiResponse := {
  success : bool;
  data : option value;
  error : option string;
}.

(** Whether a value counts as true in a condition. *)
Definition truthy (v : value) : bool :=
  match v with
  | VUndefined | VNull => false
  | VBool b => b
  | VNum n => negb (n =? 0)%Z
  | VStr s => negb (String.eqb s "")
  | VObj _ | VArr _ | VErr _ _ => true
  end.

(** [s || fallback] for an optional string. *)
Definition orString (s : option string) (fallback : string) : string :=
  match s with
  | Some x => if String.eqb x "" then fallback else x
  | None => fallback
  end.

(** [process.env.NEXT_PUBLIC_API_URL || 'http://localhost:4000/v1'] *)
Definition API_BASE_URL (NEXT_PUBLIC_API_URL : option string) : string :=
  orString NEXT_PUBLIC_API_URL "http://localhost:4000/v1".

(** [defaultOptions]:
    [{ headers: {'Content-Type': 'application/json', ...options.headers},
       ...options }] *)
Definition defaultOptions (options : gmap string value)
  : gmap string value :=
  Object_assign
    {[ "headers" :=
         VObj (Object_assign {[ "Content-Type" := VStr "application/json" ]}
                 (default VUndefined (options !! "headers"))) ]}
    (VObj options).

(** [new Error(message)]; the stack is not read by this code. *)
Definition newError (message : string) : value := VErr message VUndefined.

(** [error instanceof Error ? error.message : '网络请求失败'] *)
Definition errorMessage (error : value) : string :=
  if instanceofError error then messageOf error else "网络请求失败".

(** The body of the [try] block of [createApiRequest]. *)
Definition tryRequest
    (fetch : string → gmap string value → Completion HttpResponse)
    (JSON_parse : string → option value)
    (url : string) (options : gmap string value) : Completion ApiResponse :=
  match fetch url (defaultOptions options) with
  | Thrown e => Thrown e
  | Normal response =>
      if negb (ok response)
      then Thrown (newError
                     ("HTTP error! status: " ++ ToString (VNum (status response))))
      else
        match text response with
        | Thrown e => Thrown e
        | Normal body =>
            match JSON_parse body with
            | Some jsonData =>
                Normal {| success := true; data := Some jsonData;
                          error := None |}
            | None =>
                Normal {| success := true; data := Some (VStr body);
                          error := None |}
            end
        end
  end.

(** [createApiRequest(endpoint, options)]; [fetch] and [JSON.parse] are
    those of the platform, [JSON_parse] giving [None] when it throws. *)
Definition createApiRequest
    (fetch : string → gmap string value → Completion HttpResponse)
    (JSON_parse : string → option value)
    (NEXT_PUBLIC_API_URL : option string)
    (endpoint : string) (options : gmap string value) : ApiResponse :=
  match tryRequest fetch JSON_parse
          (API_BASE_URL NEXT_PUBLIC_API_URL ++ endpoint) options with
  | Normal r => r
  | Thrown error =>
      {| success := false; data := None;
         error := Some (errorMessage error) |}
  end.

(** [getHello()] *)
Definition getHello fetch JSON_parse NEXT_PUBLIC_API_URL : ApiResponse :=
  createApiRequest fetch JSON_parse NEXT_PUBLIC_API_URL "/hello" ∅.

(** [getHelloRaw()] *)
Definition getHelloRaw fetch JSON_parse NEXT_PUBLIC_API_URL
  : Completion value :=
  let response := getHello fetch JSON_parse NEXT_PUBLIC_API_URL in
  if success response && truthy (default VUndefined (data response))
  then Normal (default VUndefined (data response))
  else Thrown (newError (orString (error response) "获取hello信息失败")).

End WebApi.

(* ===================================================================== *)
(** ** [apps/web/src/hooks/useApi.ts] *)
(* ===================================================================== *)

Module UseApi.
Import JS WebApi.

(** [UseApiState<T>]: [None] for [null]. *)
Record UseApiState := {
  data : option value;
  loading : bool;
  error : option string;
}.

(** The state given to [useState], which [reset] sets again. *)
Definition initialState : UseApiState :=
  {| data := None; loading := false; error := None |}.

Definition reset (prev : UseApiState) : UseApiState := initialState.

(** The first [setState] of [execute]. *)
Definition start (prev : UseApiState) : UseApiState :=
  {| data := data prev; loading := true; error := None |}.

(** [response.data || null] *)
Definition dataOrNull (d : option value) : option value :=
  match d with
  | Some v => if truthy v then Some v else None
  | None => None
  end.

(** The [setState] that ends [execute], after [apiFunction] returned or
    threw. *)
Definition finish (outcome : Completion ApiResponse) : UseApiState :=
  match outcome with
  | Normal response =>
      if success response
      then {| data := dataOrNull (WebApi.data response);
              loading := false; error := None |}
      else {| data := None; loading := false;
              error := Some (orString (WebApi.error response) "请求失败") |}
  | Thrown e =>
      {| data := None; loading := false;
         error := Some (if instanceofError e then messageOf e
                        else "未知错误") |}
  end.

(** [execute(...args)]: the states set, in order, when the call of
    [apiFunction] ends with [outcome]. *)
Definition execute (outcome : Completion ApiResponse) (prev : UseApiState)
  : list UseApiState :=
  [start prev; finish outcome].

End UseApi.

(* ===================================================================== *)
(** * Specification-side definitions and sample inputs *)
(* ===================================================================== *)

Import JS Storage InjectPinoLogger.
Open Scope list_scope.

(** The encoding of a character, from its bytes. *)
Definition utf8 (bytes : list nat) : string :=
  fold_right (fun n s => String (ascii_of_nat n) s) EmptyString bytes.

(** The white-space characters of ECMAScript (WhiteSpace and
    LineTerminator): U+0009 to U+000D, U+0020, U+00A0, U+1680, U+2000 to
    U+200A, U+2028, U+2029, U+202F, U+205F, U+3000 and U+FEFF. *)
Definition whiteSpace : list string :=
  [ utf8 [9]; utf8 [10]; utf8 [11]; utf8 [12]; utf8 [13]; utf8 [32];
    utf8 [194; 160];
    utf8 [225; 154; 128];
    utf8 [226; 128; 128]; utf8 [226; 128; 129]; utf8 [226; 128; 130];
    utf8 [226; 128; 131]; utf8 [226; 128; 132]; utf8 [226; 128; 133];
    utf8 [226; 128; 134]; utf8 [226; 128; 135]; utf8 [226; 128; 136];
    utf8 [226; 128; 137]; utf8 [226; 128; 138];
    utf8 [226; 128; 168]; utf8 [226; 128; 169]; utf8 [226; 128; 175];
    utf8 [226; 129; 159];
    utf8 [227; 128; 128];
    utf8 [239; 187; 191] ].

Definition joined (ws : list string) : string :=
  fold_right String.append EmptyString ws.

(** A newline, then any number of white-space characters, then ["at "]. *)
Definition stackPattern (s : string) : Prop :=
  ∃ pre ws post,
    s = (pre ++ String Regex.newline (joined ws ++ "at " ++ post))%string
    ∧ Forall (fun w => w ∈ whiteSpace) ws.


(** The content of [decoratedLoggers] after the decorator was applied
    with each of [labels], in that order. *)
Definition registerAll (labels : list string) (decoratedLoggers : list string)
  : list string :=
  foldl (fun s L => snd (InjectPinoLogger (Some L) s)) decoratedLoggers labels.

(** The configuration in which nothing is set. *)
Definition defaultParams : Params.Params :=
  {| Params.pinoHttp := Params.PHOmitted;
     Params.useExisting := false;
     Params.renameContext := None;
     Params.assignResponse := false |}.


(** A stack string as an exception handler passes it. *)
Definition boomStack : string :=
  ("Error: boom" ++ String Regex.newline "    at foo (file.js:1:1)")%string.

(** A facade labelled ["AppService"] under the default names. *)
Definition appService : PinoLogger.t :=
  {| PinoLogger.context := "AppService";
     PinoLogger.contextName := "context";
     PinoLogger.errorKey := "err" |}.

(** A request in flight: one logger object, which the store holds both as
    request logger and as response logger. *)
Definition inRequest : State :=
  {| loggers := {[ 0 := newLogger Root ]};
     stores := {[ 0 := {| logger := 0; responseLogger := Some 0 |} ]};
     current := Some 0;
     outOfContext := None;
     emitted := [] |}.

(** A configuration whose [pinoHttp] has the key [logger] with the value
    [undefined]. *)
Definition undefinedLoggerParams : Params.Params :=
  {| Params.pinoHttp :=
       Params.PHOptions
         {| Params.logger := Params.Present None;
            Params.stream := Params.Absent;
            Params.customAttributeKeys := Params.Absent |};
     Params.useExisting := false;
     Params.renameContext := None;
     Params.assignResponse := false |}.

(** An occurrence of [%s], [%d], [%j] or [%o]. *)
Definition hasPlaceholder (s : string) : Prop :=
  ∃ pre c post,
    s = (pre ++ String "%" (String c post))%string
    ∧ Regex.isPlaceholderLetter c = true.


(** The six methods of the [Logger] service and the pino level of each. *)
Inductive Method := MVerbose | MDebug | MLog | MWarn | MError | MFatal.

Definition levelOf (m : Method) : Level.t :=
  match m with
  | MVerbose => Level.trace
  | MDebug => Level.debug
  | MLog => Level.info
  | MWarn => Level.warn
  | MError => Level.error
  | MFatal => Level.fatal
  end.

Definition invoke (m : Method) (this : LoggerService.t) (message : value)
    (optionalParams : list value) : M unit :=
  match m with
  | MVerbose => LoggerService.verbose this message optionalParams
  | MDebug => LoggerService.debug this message optionalParams
  | MLog => LoggerService.log this message optionalParams
  | MWarn => LoggerService.warn this message optionalParams
  | MError => LoggerService.error this message optionalParams
  | MFatal => LoggerService.fatal this message optionalParams
  end.

(** No request in flight, and the fallback logger set. *)
Definition outOfRequest : State :=
  {| loggers := {[ 0 := newLogger Root ]};
     stores := ∅;
     current := None;
     outOfContext := Some 0;
     emitted := [] |}.

(** The [Logger] service over an unlabelled facade, default names. *)
Definition defaultService : LoggerService.t :=
  {| LoggerService.logger :=
       {| PinoLogger.context := "";
          PinoLogger.contextName := "context";
          PinoLogger.errorKey := "err" |};
     LoggerService.contextName := "context" |}.

(* ===================================================================== *)
(** * Properties *)
(* ===================================================================== *)

(** ** Lists and strings *)

Lemma last_snoc (l : list value) (x : value) : Radashi.last (l ++ [x]) = x.
Proof. unfold Radashi.last. apply last_last. Qed.

Lemma slice_snoc (l : list value) (x : value) : slice_0_m1 (l ++ [x]) = l.
Proof. unfold slice_0_m1. apply removelast_last. Qed.



(** Every list is empty or ends in some element. *)
Lemma list_snoc_cases (l : list value) : l = [] ∨ ∃ l' x, l = l' ++ [x].
Proof.
  induction l as [ | x l' _] using rev_ind; eauto.
Qed.

(** ** The stack-trace pattern *)

Lemma utf8_bytes (l : list ascii) :
  utf8 (map Regex.byte l) = fold_right String EmptyString l.
Proof.
  induction l as [|c l IH]; [reflexivity|].
  simpl. unfold Regex.byte at 1. by rewrite ascii_nat_embedding, IH.
Qed.

Ltac white_cases H :=
  repeat match type of H with
         | _ ∨ _ => destruct H as [H|H]
         | _ ∧ _ =>
             let H1 := fresh "H" in
             destruct H as [H1 H]; try white_cases H1
         end.

Ltac white_member :=
  match goal with
  | |- utf8 ?l ∈ whiteSpace => apply (bool_decide_unpack _); by vm_compute
  end.

Lemma white1 (c : ascii) :
  Regex.isSpace1 c = true → String c EmptyString ∈ whiteSpace.
Proof.
  unfold Regex.isSpace1.
  intros H. change (String c EmptyString) with (fold_right String EmptyString [c]).
  rewrite <- utf8_bytes. simpl map.
  assert (Regex.byte c = 9 ∨ Regex.byte c = 10 ∨ Regex.byte c = 11
          ∨ Regex.byte c = 12 ∨ Regex.byte c = 13 ∨ Regex.byte c = 32)
    as Hc by lia.
  clear H. white_cases Hc; rewrite Hc; white_member.
Qed.

Lemma white2 (c d : ascii) :
  Regex.isSpace2 c d = true → String c (String d EmptyString) ∈ whiteSpace.
Proof.
  unfold Regex.isSpace2. intros H.
  assert (Regex.byte c = 194 ∧ Regex.byte d = 160) as [Hc Hd] by lia.
  change (String c (String d EmptyString))
    with (fold_right String EmptyString [c; d]).
  rewrite <- utf8_bytes. simpl map. rewrite Hc, Hd. white_member.
Qed.

Lemma white3 (c d e : ascii) :
  Regex.isSpace3 c d e = true →
  String c (String d (String e EmptyString)) ∈ whiteSpace.
Proof.
  unfold Regex.isSpace3.
  intros H.
  change (String c (String d (String e EmptyString)))
    with (fold_right String EmptyString [c; d; e]).
  rewrite <- utf8_bytes. simpl map.
  assert (Regex.byte c = 225 ∧ Regex.byte d = 154 ∧ Regex.byte e = 128
          ∨ Regex.byte c = 226 ∧ Regex.byte d = 128
            ∧ (Regex.byte e = 128 ∨ Regex.byte e = 129 ∨ Regex.byte e = 130
               ∨ Regex.byte e = 131 ∨ Regex.byte e = 132
               ∨ Regex.byte e = 133 ∨ Regex.byte e = 134
               ∨ Regex.byte e = 135 ∨ Regex.byte e = 136
               ∨ Regex.byte e = 137 ∨ Regex.byte e = 138
               ∨ Regex.byte e = 168 ∨ Regex.byte e = 169
               ∨ Regex.byte e = 175)
          ∨ Regex.byte c = 226 ∧ Regex.byte d = 129 ∧ Regex.byte e = 159
          ∨ Regex.byte c = 227 ∧ Regex.byte d = 128 ∧ Regex.byte e = 128
          ∨ Regex.byte c = 239 ∧ Regex.byte d = 187 ∧ Regex.byte e = 191)
    as Hc by lia.
  clear H.
  destruct Hc as [(Hc & Hd & He)|[(Hc & Hd & He)|[(Hc & Hd & He)
                 |[(Hc & Hd & He)|(Hc & Hd & He)]]]];
    rewrite Hc, Hd; white_cases He; rewrite He; white_member.
Qed.

(** Skipping stops exactly where the white space ends: what was skipped is a
    sequence of white-space characters. *)
Lemma skipSpaces_split_len (n : nat) :
  ∀ s, (String.length s ≤ n)%nat →
  ∃ ws, Forall (fun w => w ∈ whiteSpace) ws
        ∧ s = (joined ws ++ Regex.skipSpaces s)%string.
Proof.
  induction n as [|n IH]; intros s Hn.
  { destruct s; [|simpl in Hn; lia]. exists []. split; [constructor|reflexivity]. }
  destruct s as [|c rest]; [exists []; split; [constructor|reflexivity]|].
  simpl in Hn. simpl Regex.skipSpaces.
  destruct (Regex.isSpace1 c) eqn:H1.
  { destruct (IH rest ltac:(lia)) as (ws & Hws & Heq).
    exists (String c EmptyString :: ws). split.
    - constructor; [by apply white1|done].
    - simpl. exact (f_equal (String c) Heq). }
  destruct rest as [|d rest2]; [exists []; split; [constructor|reflexivity]|].
  simpl in Hn.
  destruct (Regex.isSpace2 c d) eqn:H2.
  { destruct (IH rest2 ltac:(lia)) as (ws & Hws & Heq).
    exists (String c (String d EmptyString) :: ws). split.
    - constructor; [by apply white2|done].
    - simpl. exact (f_equal (fun r => String c (String d r)) Heq). }
  destruct rest2 as [|e rest3]; [exists []; split; [constructor|reflexivity]|].
  simpl in Hn.
  destruct (Regex.isSpace3 c d e) eqn:H3.
  { destruct (IH rest3 ltac:(lia)) as (ws & Hws & Heq).
    exists (String c (String d (String e EmptyString)) :: ws). split.
    - constructor; [by apply white3|done].
    - simpl. exact (f_equal (fun r => String c (String d (String e r))) Heq). }
  exists []; split; [constructor|reflexivity].
Qed.

Lemma skipSpaces_split (s : string) :
  ∃ ws, Forall (fun w => w ∈ whiteSpace) ws
        ∧ s = (joined ws ++ Regex.skipSpaces s)%string.
Proof. by apply (skipSpaces_split_len (String.length s)). Qed.

(** Every white-space character is skipped. *)
Lemma skipSpaces_white (w rest : string) :
  w ∈ whiteSpace →
  Regex.skipSpaces (w ++ rest) = Regex.skipSpaces rest.
Proof.
  unfold whiteSpace. rewrite !elem_of_cons, elem_of_nil.
  intros H.
  repeat (destruct H as [->|H]; [reflexivity|]).
  destruct H.
Qed.

Lemma string_app_assoc (a b c : string) :
  ((a ++ b) ++ c = a ++ b ++ c)%string.
Proof.
  induction a as [|x a IH]; [reflexivity|]. exact (f_equal (String x) IH).
Qed.

Lemma skipSpaces_at (ws : list string) (post : string) :
  Forall (fun w => w ∈ whiteSpace) ws →
  Regex.skipSpaces (joined ws ++ "at " ++ post) = ("at " ++ post)%string.
Proof.
  induction 1 as [|w ws Hw _ IH]; [reflexivity|].
  simpl joined. rewrite string_app_assoc.
  rewrite skipSpaces_white by done. exact IH.
Qed.

Lemma prefix_at (s : string) :
  String.prefix "at " s = true ↔ ∃ post, s = ("at " ++ post)%string.
Proof.
  split.
  - destruct s as [ | a [ | b [ | c post]]]; simpl; try done;
      repeat (case_match; try done); subst.
    intros _. by exists post.
  - intros [post ->]. simpl. by destruct post.
Qed.

(** The matcher decides the pattern. *)
Lemma testStack_spec (s : string) :
  Regex.testStack s = true ↔ stackPattern s.
Proof.
  split.
  - induction s as [ | c rest IH]; simpl; [done | ].
    intros [[Hc Hp]%andb_prop | Hrest]%orb_prop.
    + apply Ascii.eqb_eq in Hc as ->.
      apply prefix_at in Hp as [post Hpost].
      destruct (skipSpaces_split rest) as (ws & Hws & Heq).
      exists "", ws, post. split; [ | done]. simpl.
      by rewrite Heq at 1; rewrite Hpost.
    + destruct (IH Hrest) as (pre & ws & post & -> & Hws).
      by exists (String c pre), ws, post.
  - intros (pre & ws & post & -> & Hws).
    induction pre as [ | c pre IH]; simpl.
    + rewrite (skipSpaces_at _ _ Hws). simpl. by destruct post.
    + rewrite IH. by rewrite orb_true_r.
Qed.

(** ** The placeholder test *)



Lemma mergeOrInterpolate_nil (message : value) (mo : gmap string value) :
  Logger.mergeOrInterpolate message mo [] = (mo, []).
Proof. done. Qed.

Lemma extractContext_snoc (contextName : string) (params : list value)
    (c : value) :
  Logger.extractContext contextName (params ++ [c])
  = if isDefined c then (<[contextName := c]> ∅, params) else (∅, []).
Proof.
  unfold Logger.extractContext. by rewrite last_snoc, slice_snoc.
Qed.


(** ** Sample evaluations *)

Example placeholders_two : Regex.numPlaceholders "%s did %s" = 2.
Proof. reflexivity. Qed.

Example placeholders_escaped : Regex.numPlaceholders "100%% of %d%" = 1.
Proof. reflexivity. Qed.

Example placeholders_none : Regex.numPlaceholders "login attempt" = 0.
Proof. reflexivity. Qed.

Example stack_matches : Regex.testStack boomStack = true.
Proof. reflexivity. Qed.

Example stack_needs_newline :
  Regex.testStack "Error: boom    at foo (file.js:1:1)" = false.
Proof. reflexivity. Qed.

(** A no-break space (U+00A0) and an em space (U+2003) before ["at "]. *)
Example stack_unicode_space :
  Regex.testStack
    ("Error: boom"
     ++ String Regex.newline
          (utf8 [194; 160] ++ utf8 [226; 128; 131] ++ "at foo (file.js:1:1)"))
  = true.
Proof. reflexivity. Qed.

(** A zero-width space (U+200B) is no white space. *)
Example stack_zero_width_space :
  Regex.testStack
    ("Error: boom"
     ++ String Regex.newline (utf8 [226; 128; 139] ++ "at foo (file.js:1:1)"))
  = false.
Proof. reflexivity. Qed.

(** A message without placeholder, an object and a context. *)
Example merge_case :
  Logger.call "context" Level.info (VStr "login attempt")
    [VObj {[ "requestId" := VNum 7 ]}; VStr "req-42"]
  = [VObj ({[ "requestId" := VNum 7 ]} ∪ {[ "context" := VStr "req-42" ]});
     VStr "login attempt"].
Proof. by vm_compute. Qed.

(** Two placeholders and two parameters before the context. *)
Example interpolation_case :
  Logger.call "context" Level.info (VStr "%s did %s")
    [VStr "alice"; VStr "login"; VStr "req-42"]
  = [VObj {[ "context" := VStr "req-42" ]}; VStr "%s did %s";
     VStr "alice"; VStr "login"].
Proof. by vm_compute. Qed.

(** One placeholder: the object at index 0 is kept for interpolation. *)
Example object_interpolated :
  Logger.call "context" Level.info (VStr "payload %o")
    [VObj {[ "requestId" := VNum 7 ]}; VStr "req-42"]
  = [VObj {[ "context" := VStr "req-42" ]}; VStr "payload %o";
     VObj {[ "requestId" := VNum 7 ]}].
Proof. by vm_compute. Qed.

(** A single optional parameter is the context, also when it looks like
    a stack. *)
Example single_parameter_is_context :
  Logger.call "context" Level.error (VStr "boom") [VStr boomStack]
  = [VObj {[ "context" := VStr boomStack ]}; VStr "boom"].
Proof. by vm_compute. Qed.

(** An array message goes through the object branch. *)
Example array_message :
  Logger.call "context" Level.info (VArr [VStr "a"; VNum 1]) []
  = [VObj ({[ "0" := VStr "a" ]} ∪ {[ "1" := VNum 1 ]}); VUndefined].
Proof. by vm_compute. Qed.

(** ** The message normalizer *)


Lemma call_nil (contextName : string) (level : Level.t) (message : value) :
  Logger.call contextName level message []
  = Logger.dispatch level message ∅ [] [].
Proof. done. Qed.

Lemma call_snoc_undefined (contextName : string) (level : Level.t)
    (message : value) (params : list value) :
  Logger.call contextName level message (params ++ [VUndefined])
  = Logger.dispatch level message ∅ [] [].
Proof. unfold Logger.call. by rewrite extractContext_snoc. Qed.









(** C10.  When [optionalParams] is not empty and its last element is
    [undefined], no context field is recorded and the other elements are
    dropped: the working parameter list is empty, nothing is merged into
    the fields, the call passes no interpolation argument, and it hands
    the facade what a call with no optional parameter at all does. *)
Theorem undefined_context_discards (contextName : string) (level : Level.t)
    (message : value) (params : list value) :
  Logger.extractContext contextName (params ++ [VUndefined]) = (∅, [])
  ∧ Logger.mergeOrInterpolate message ∅ [] = (∅, [])
  ∧ Logger.call contextName level message (params ++ [VUndefined])
    = Logger.call contextName level message []
  ∧ drop 2 (Logger.call contextName level message (params ++ [VUndefined]))
    = []
  ∧ ∃ fields rest,
      Logger.call contextName level message (params ++ [VUndefined])
      = VObj fields :: rest
      ∧ fields = (if instanceofError message then {[ "err" := message ]}
                  else if isTypeObject message then ownProps message
                  else ∅).
Proof.
  split; [by rewrite extractContext_snoc | split; [done | ]].
  rewrite call_snoc_undefined, call_nil. split; [done | ].
  unfold Logger.dispatch.
  assert (Hw : Logger.isWrongExceptionsHandlerContract level message []
               = false).
  { unfold Logger.isWrongExceptionsHandlerContract. simpl.
    by rewrite andb_false_r. }
  rewrite Hw.
  destruct (instanceofError message) eqn:He.
  - split; [done | ]. eexists _, _. split; [done | ]. apply insert_empty.
  - destruct (isTypeObject message) eqn:Ho.
    + split; [done | ]. eexists _, _. split; [done | ].
      unfold Object_assign. apply (right_id_L ∅ (∪)).
    + split; [done | ]. by eexists _, _.
Qed.







(** ** The context-resolving facade *)

Lemma lookup_assign (target : gmap string value) (source : value)
    (k : string) :
  Object_assign target source !! k
  = match ownProps source !! k with
    | Some v => Some v
    | None => target !! k
    end.
Proof.
  unfold Object_assign. rewrite lookup_union.
  destruct (ownProps source !! k), (target !! k); done.
Qed.




(** ** Field augmentation *)

Lemma fresh_logger (st : State) :
  loggers st !! fresh (dom (loggers st)) = None.
Proof. apply not_elem_of_dom, is_fresh. Qed.

(** The middleware puts a response logger in the store only when
    [assignResponse] is set. *)
Lemma storeFor_response (useExisting assignResponse : bool)
    (req res : LoggerModule.Logged) (l r : nat) :
  LoggerModule.storeFor useExisting assignResponse req res = Some (l, Some r)
  → assignResponse = true.
Proof.
  unfold LoggerModule.storeFor. destruct assignResponse; [done | ].
  simpl. repeat case_match; congruence.
Qed.

(** Inside the middleware a severity method calls the logger chosen for
    the request, and afterwards the active store is the former one. *)
Lemma middleware_scope (useExisting assignResponse : bool)
    (req res : LoggerModule.Logged) (l : nat) (resLog : option nat)
    (this : PinoLogger.t) (level : Level.t) (args : list value) :
  LoggerModule.storeFor useExisting assignResponse req res
  = Some (l, resLog) →
  ∃ m,
    LoggerModule.bindLoggerMiddleware useExisting assignResponse req res
      (PinoLogger.call this level args) = Some m
    ∧ ∀ st, ∃ st',
        m st = (Ok tt, st')
        ∧ emitted st'
          = emitted st ++ [{| em_logger := l; em_level := level;
                              em_args := PinoLogger.labelArgs this args |}]
        ∧ current st' = current st
        ∧ loggers st' = loggers st.
Proof.
  intros Hs. unfold LoggerModule.bindLoggerMiddleware. rewrite Hs.
  eexists. split; [reflexivity | ]. intros st.
  unfold bind, newStore, run, PinoLogger.call, PinoLogger.logger, getStore.
  simpl. rewrite lookup_insert_eq. simpl. by eexists.
Qed.

(** C6.  [assign] with no active store throws and leaves the world as it
    was.  With an active store it succeeds: the store's [logger] becomes a
    new logger object, the one that [child(fields)] made from the former
    logger of the store; a response logger of the store, present only
    when the middleware ran with [assignResponse], stays the same object
    in the store and gets one more [setBindings(fields)] call itself; the
    other stores, the other logger objects, the active store, the fallback
    and the calls made so far are untouched. *)
Theorem assign_spec (fields : gmap string value) (st : State) :
  (getStore st = None →
   PinoLogger.assign fields st
   = (Throw (Error
        "PinoLogger: unable to assign extra fields out of request scope"),
      st))
  ∧ (∀ sid store, getStore st = Some (sid, store) →
     ∃ l' st',
       PinoLogger.assign fields st = (Ok tt, st')
       ∧ loggers st !! l' = None
       ∧ stores st' !! sid
         = Some {| logger := l'; responseLogger := responseLogger store |}
       ∧ origin <$> loggers st' !! l'
         = Some (ChildOf (logger store) fields)
       ∧ (∀ r o, responseLogger store = Some r → loggers st !! r = Some o →
            loggers st' !! l'
            = Some {| origin := ChildOf (logger store) fields;
                      bindingsSet := [] |}
            ∧ loggers st' !! r
              = Some {| origin := origin o;
                        bindingsSet := bindingsSet o ++ [fields] |})
       ∧ (responseLogger store = None →
            loggers st' !! l'
            = Some {| origin := ChildOf (logger store) fields;
                      bindingsSet := [] |})
       ∧ (∀ l, l ≠ l' → responseLogger store ≠ Some l →
            loggers st' !! l = loggers st !! l)
       ∧ (∀ sid', sid' ≠ sid → stores st' !! sid' = stores st !! sid')
       ∧ current st' = current st
       ∧ outOfContext st' = outOfContext st
       ∧ emitted st' = emitted st)
  ∧ (∀ useExisting assignResponse req res l r,
       LoggerModule.storeFor useExisting assignResponse req res
       = Some (l, Some r) →
       assignResponse = true).
Proof.
  split; [ | split].
  - intros Hs. unfold PinoLogger.assign. by rewrite Hs.
  - intros sid store Hs. unfold PinoLogger.assign. rewrite Hs.
    pose proof (fresh_logger st) as Hfresh.
    exists (fresh (dom (loggers st))).
    unfold bind, child, PinoLogger.setStoreLogger, setBindings, ret.
    destruct (responseLogger store) as [r | ] eqn:Hr; simpl;
      (eexists; split; [reflexivity | ]); simpl;
      (split; [done | ]); (split; [by rewrite lookup_insert_eq | ]).
    + split.
      { destruct (decide (r = fresh (dom (loggers st)))) as [-> | Hne].
        - by rewrite lookup_alter_eq, lookup_insert_eq.
        - by rewrite lookup_alter_ne, lookup_insert_eq. }
      split.
      { intros r' o [= <-] Ho.
        assert (r ≠ fresh (dom (loggers st))) as Hne
          by (intros Heq; rewrite Heq, Hfresh in Ho; done).
        split.
        - by rewrite lookup_alter_ne, lookup_insert_eq.
        - rewrite lookup_alter_eq, lookup_insert_ne by done.
          by rewrite Ho. }
      split; [done | ]. split.
      { intros l Hl Hlr. rewrite lookup_alter_ne by congruence.
        by rewrite lookup_insert_ne. }
      split; [ | done].
      intros sid' Hsid. by rewrite lookup_insert_ne.
    + rewrite lookup_insert_eq. split; [done | ].
      split; [done | ]. split; [done | ]. split.
      { intros l Hl _. by rewrite lookup_insert_ne. }
      split; [ | done].
      intros sid' Hsid. by rewrite lookup_insert_ne.
  - intros ue ar req res l r. apply storeFor_response.
Qed.

Lemma assign_spec_witness :
  ∃ l' st',
    PinoLogger.assign {[ "userId" := VNum 42 ]} inRequest = (Ok tt, st')
    ∧ stores st' !! 0 = Some {| logger := l'; responseLogger := Some 0 |}
    ∧ loggers st' !! l'
      = Some {| origin := ChildOf 0 {[ "userId" := VNum 42 ]};
                bindingsSet := [] |}
    ∧ loggers st' !! 0
      = Some {| origin := Root;
                bindingsSet := [ {[ "userId" := VNum 42 ]} ] |}.
Proof.
  destruct (proj1 (proj2 (assign_spec {[ "userId" := VNum 42 ]} inRequest))
              0 {| logger := 0; responseLogger := Some 0 |} eq_refl)
    as (l' & st' & Hrun & _ & Hstore & _ & Hres & _).
  exists l', st'. split; [exact Hrun | ]. split; [exact Hstore | ].
  exact (Hres 0 (newLogger Root) eq_refl eq_refl).
Defined.

(** ** Fallback resolution *)

(** With no active store and the fallback set, a severity method calls
    the fallback logger and does nothing else. *)
Lemma call_on_fallback (this : PinoLogger.t) (st : State) (h : nat)
    (level : Level.t) (args : list value) :
  getStore st = None → outOfContext st = Some h →
  PinoLogger.logger st = Some h
  ∧ PinoLogger.call this level args st
    = log h level (PinoLogger.labelArgs this args) st.
Proof.
  intros Hs Ho. unfold PinoLogger.call, PinoLogger.logger.
  by rewrite Hs, Ho.
Qed.

(** The constructor sets the fallback, unless the configuration passes a
    logger that is [undefined] while none was set before. *)
Lemma constructor_sets_fallback (p : Params.Params) (st : State) :
  (Params.isPassedLogger (Params.pinoHttp p) = true →
   is_Some (PinoLogger.passedLogger (Params.pinoHttp p))) →
  ∃ this st',
    PinoLogger.constructor p st = (Ok this, st')
    ∧ is_Some (outOfContext st')
    ∧ current st' = current st ∧ stores st' = stores st.
Proof.
  intros Hp. unfold PinoLogger.constructor, bind, PinoLogger.initOutOfContext.
  case_bool_decide as Hset; [by eexists _, _ | ].
  destruct (PinoLogger.isArray (Params.pinoHttp p));
    [by eexists _, _ | ].
  destruct (Params.isPassedLogger (Params.pinoHttp p)).
  - eexists _, _. split; [reflexivity | ]. simpl. by split; [apply Hp | ].
  - destruct (PinoLogger.hasStream (Params.pinoHttp p)); by eexists _, _.
Qed.

(** C8 (failing input).  After the first construction with
    [undefinedLoggerParams] the fallback is still unset, and a severity
    method called outside any request throws. *)
Theorem fallback_unset_after_construction :
  ∃ this st',
    PinoLogger.constructor undefinedLoggerParams initial = (Ok this, st')
    ∧ getStore st' = None
    ∧ outOfContext st' = None
    ∧ PinoLogger.logger st' = None
    ∧ PinoLogger.call this Level.info [VStr "hello"] st'
      = (Throw (TypeError "Cannot read properties of undefined"), st').
Proof. eexists _, _. split; [reflexivity | done]. Qed.

(** ** The registry of labels *)

Lemma Set_add_NoDup (x : string) (s : list string) :
  NoDup s → NoDup (Set_add x s).
Proof.
  intros Hs. unfold Set_add. case_decide as Hx; [done | ].
  apply NoDup_app. split; [done | ]. split; [ | apply NoDup_singleton].
  intros y Hy ->%list_elem_of_singleton. done.
Qed.

Lemma Set_add_elem (x y : string) (s : list string) :
  y ∈ Set_add x s ↔ y = x ∨ y ∈ s.
Proof.
  unfold Set_add. case_decide as Hx.
  - split; [by right | ]. by intros [-> | ?].
  - rewrite elem_of_app, list_elem_of_singleton. tauto.
Qed.

Lemma registerAll_NoDup (labels s : list string) :
  NoDup s → NoDup (registerAll labels s).
Proof.
  revert s. induction labels as [ | L labels IH]; intros s Hs; [done | ].
  simpl. apply IH. by apply Set_add_NoDup.
Qed.

Lemma registerAll_elem (labels s : list string) (x : string) :
  x ∈ registerAll labels s ↔ x ∈ labels ∨ x ∈ s.
Proof.
  revert s. induction labels as [ | L labels IH]; intros s; simpl.
  - rewrite elem_of_nil. tauto.
  - rewrite IH, Set_add_elem, elem_of_cons. tauto.
Qed.

Lemma filter_absent (x : string) (s : list string) :
  x ∉ s → filter (fun y => y = x) s = [].
Proof.
  induction s as [ | y s IH]; [done | ].
  intros [Hy Hs]%not_elem_of_cons.
  rewrite filter_cons_False by congruence. by apply IH.
Qed.

Lemma NoDup_filter_one (x : string) (s : list string) :
  NoDup s → x ∈ s → length (filter (fun y => y = x) s) = 1.
Proof.
  induction 1 as [ | y s Hy Hs IH]; [by intros ?%elem_of_nil | ].
  intros [-> | Hx]%elem_of_cons.
  - rewrite filter_cons_True by done. simpl.
    by rewrite filter_absent.
  - rewrite filter_cons_False; [by apply IH | ].
    intros ->. done.
Qed.

Lemma getLoggerToken_inj (a b : string) :
  getLoggerToken a = getLoggerToken b → a = b.
Proof. unfold getLoggerToken. apply String.app_inj. Qed.

Lemma providers_filter (L : string) (s : list string) :
  length (filter (fun pr => provide pr = getLoggerToken L)
            (createProvidersForDecorated s))
  = length (filter (fun y => y = L) s).
Proof.
  unfold createProvidersForDecorated.
  induction s as [ | y s IH]; [done | ]. simpl.
  destruct (decide (y = L)) as [-> | Hne].
  - rewrite !filter_cons_True by done. simpl. by rewrite IH.
  - rewrite !filter_cons_False; [done | done | ].
    simpl. by intros ?%getLoggerToken_inj.
Qed.

(** C9.  After any sequence of registrations in which the label [L]
    occurs at least once, the set of labels has [L] exactly once, the
    providers built from it have exactly one provider under the token of
    [L], and the facade this provider returns is labelled [L]. *)
Theorem registration_idempotent (labels : list string) (L : string) :
  L ∈ labels →
  length (filter (fun y => y = L) (registerAll labels [])) = 1
  ∧ length (filter (fun pr => provide pr = getLoggerToken L)
              (createProvidersForDecorated (registerAll labels []))) = 1
  ∧ (∀ pr logger,
       pr ∈ createProvidersForDecorated (registerAll labels []) →
       provide pr = getLoggerToken L →
       PinoLogger.context (useFactory pr logger) = L).
Proof.
  intros HL.
  assert (Hone : length (filter (fun y => y = L) (registerAll labels [])) = 1).
  { apply NoDup_filter_one.
    - apply registerAll_NoDup, NoDup_nil_2.
    - apply registerAll_elem. by left. }
  split; [done | ]. split; [by rewrite providers_filter | ].
  intros pr logger Hpr Htok. unfold createProvidersForDecorated in Hpr.
  apply list_elem_of_fmap in Hpr as (c & -> & _). simpl in *.
  by apply getLoggerToken_inj.
Qed.

Lemma registration_idempotent_witness :
  length (filter (fun y => y = "UserService")
            (registerAll ["UserService"; "AppService"; "UserService"] []))
  = 1
  ∧ length (filter (fun pr => provide pr = getLoggerToken "UserService")
              (createProvidersForDecorated
                 (registerAll ["UserService"; "AppService"; "UserService"]
                    []))) = 1
  ∧ (∀ pr logger,
       pr ∈ createProvidersForDecorated
              (registerAll ["UserService"; "AppService"; "UserService"] []) →
       provide pr = getLoggerToken "UserService" →
       PinoLogger.context (useFactory pr logger) = "UserService").
Proof.
  apply (registration_idempotent
           ["UserService"; "AppService"; "UserService"] "UserService").
  apply elem_of_cons. left. reflexivity.
Defined.

(* ===================================================================== *)
(** * Further properties of the code *)
(* ===================================================================== *)

(** ** Placeholders and the stack pattern *)

(** X1.  A message has at least one counted placeholder exactly when a
    [%] followed by [s], [d], [j] or [o] occurs in it. *)
Theorem placeholder_counted_iff_present (s : string) :
  0 < Regex.numPlaceholders s ↔ hasPlaceholder s.
Proof.
  split.
  - induction s as [ | c rest IH]; simpl; [lia | ].
    destruct rest as [ | c' rest']; [lia | ].
    destruct (Ascii.eqb c "%" && Regex.isPlaceholderLetter c') eqn:Hm.
    + intros _. apply andb_prop in Hm as [->%Ascii.eqb_eq Hc'].
      by exists "", c', rest'.
    + intros Hpos. destruct (IH Hpos) as (pre & d & post & Heq & Hd).
      exists (String c pre), d, post. split; [ | done].
      simpl. by rewrite Heq.
  - intros (pre & d & post & -> & Hd).
    induction pre as [ | a pre IH]; simpl.
    + rewrite Hd. simpl. lia.
    + destruct (pre ++ String "%" (String d post))%string
        as [ | b tl] eqn:Htl.
      * by destruct pre.
      * destruct (Ascii.eqb a "%" && Regex.isPlaceholderLetter b);
          [lia | exact IH].
Qed.

Lemma placeholder_bound_aux (s : string) :
  (2 * Regex.numPlaceholders s ≤ String.length s)%nat
  ∧ ∀ c, (2 * Regex.numPlaceholders (String c s) ≤ S (String.length s))%nat.
Proof.
  induction s as [ | c' rest [IH1 IH2]].
  - split; [simpl; lia | intros c; simpl; lia].
  - split; [apply IH2 | ].
    intros c. change (Regex.numPlaceholders (String c (String c' rest)))
      with (if Ascii.eqb c "%" && Regex.isPlaceholderLetter c'
            then S (Regex.numPlaceholders rest)
            else Regex.numPlaceholders (String c' rest)).
    destruct (Ascii.eqb c "%" && Regex.isPlaceholderLetter c').
    + simpl String.length. lia.
    + specialize (IH2 c'). simpl String.length in *. lia.
Qed.

(** X2.  Placeholders do not overlap: a message of [n] characters has at
    most [n / 2] of them. *)
Theorem placeholder_bound (s : string) :
  (2 * Regex.numPlaceholders s ≤ String.length s)%nat.
Proof. apply placeholder_bound_aux. Qed.

(** X3.  The matcher of the stack pattern accepts exactly the strings
    that contain a newline, then any number of the white-space characters
    of ECMAScript (the list [whiteSpace]), then ["at "]. *)
Theorem stack_matcher_decides (s : string) :
  Regex.testStack s = true ↔ stackPattern s.
Proof. apply testStack_spec. Qed.

(** ** The shape of what the normalizer passes on *)

Lemma slice_prefix (l : list value) : slice_0_m1 l `prefix_of` l.
Proof.
  destruct (list_snoc_cases l) as [-> | (l' & x & ->)]; [done | ].
  rewrite slice_snoc. by apply prefix_app_r.
Qed.

Lemma merge_prefix (message : value) (mo : gmap string value)
    (pwc : list value) :
  (Logger.mergeOrInterpolate message mo pwc).2 `prefix_of` pwc.
Proof.
  unfold Logger.mergeOrInterpolate.
  destruct (_ && _); simpl; [apply slice_prefix | done].
Qed.

Lemma dispatch_shape (level : Level.t) (message : value)
    (mo : gmap string value) (pwc interp : list value) :
  (∃ fields rest,
      Logger.dispatch level message mo pwc interp = VObj fields :: rest)
  ∧ drop 2 (Logger.dispatch level message mo pwc interp) `prefix_of` interp
  ∧ (∀ m, Logger.dispatch level message mo pwc interp !! 1 = Some m →
       m = VUndefined ∨ ∃ s, m = VStr s).
Proof.
  unfold Logger.dispatch.
  destruct (instanceofError message);
    [ | destruct (Logger.isWrongExceptionsHandlerContract level message pwc);
        [ | destruct (isTypeObject message)]].
  all: split; [by eexists _, _ | split; [simpl; try done | ]].
  all: try apply prefix_nil.
  all: intros m [= <-]; eauto.
Qed.


(** X4.  Whatever it is given, the normalizer passes the facade an
    object first; the second argument, when there is one, is a string or
    [undefined]; and the arguments after it are the first ones of
    [optionalParams], in their order, never the last one. *)
Theorem normalizer_output_shape (contextName : string) (level : Level.t)
    (message : value) (optionalParams : list value) :
  (∃ fields rest,
      Logger.call contextName level message optionalParams
      = VObj fields :: rest)
  ∧ drop 2 (Logger.call contextName level message optionalParams)
      `prefix_of` slice_0_m1 optionalParams
  ∧ (∀ m, Logger.call contextName level message optionalParams !! 1 = Some m →
       m = VUndefined ∨ ∃ s, m = VStr s).
Proof.
  unfold Logger.call.
  destruct (Logger.extractContext contextName optionalParams)
    as [mo0 pwc] eqn:He.
  pose proof (merge_prefix message mo0 pwc) as Hm.
  destruct (Logger.mergeOrInterpolate message mo0 pwc) as [mo interp].
  simpl in Hm.
  destruct (dispatch_shape level message mo pwc interp) as (H1 & H2 & H3).
  split; [exact H1 | split; [ | exact H3]].
  assert (Hpwc : pwc `prefix_of` slice_0_m1 optionalParams).
  { unfold Logger.extractContext in He.
    destruct (isDefined _); simplify_eq; [done | apply prefix_nil]. }
  by repeat (etrans; [eassumption | ]).
Qed.

Lemma normalizer_output_shape_witness :
  VStr "5" = VUndefined ∨ ∃ s, VStr "5" = VStr s.
Proof.
  exact (proj2 (proj2 (normalizer_output_shape "context" Level.info
                         (VNum 5) [VStr "a"; VStr "AppService"]))
           (VStr "5") eq_refl).
Defined.



(** ** The normalizer in front of the facade *)

Lemma union_absorb (a b : gmap string value) : (a ∪ b) ∪ b = a ∪ b.
Proof. by rewrite <- (assoc_L (∪)), (idemp_L (∪)). Qed.

(** X6.  Injecting the label twice is the same as injecting it once. *)
Theorem label_injection_idempotent (this : PinoLogger.t)
    (args : list value) :
  PinoLogger.labelArgs this (PinoLogger.labelArgs this args)
  = PinoLogger.labelArgs this args.
Proof.
  unfold PinoLogger.labelArgs.
  destruct (negb (PinoLogger.context this =? "")%string); [ | done].
  destruct (PinoLogger.isFirstArgObject args) eqn:Ho.
  - destruct (instanceofError (first args));
      unfold PinoLogger.isFirstArgObject, first; simpl;
      unfold Object_assign; simpl; by rewrite union_absorb.
  - unfold PinoLogger.isFirstArgObject, first. simpl.
    unfold Object_assign. simpl. by rewrite (idemp_L (∪)).
Qed.



(** X8.  Each of the six methods of the [Logger] service makes exactly
    one call on the resolved pino logger, at the level [trace] for
    [verbose], [info] for [log] and its own level for the others, and
    changes nothing else. *)
Theorem methods_emit_once (m : Method) (this : LoggerService.t)
    (message : value) (optionalParams : list value) (st : State) (h : nat) :
  PinoLogger.logger st = Some h →
  ∃ args st',
    invoke m this message optionalParams st = (Ok tt, st')
    ∧ emitted st'
      = emitted st ++ [{| em_logger := h; em_level := levelOf m;
                          em_args := args |}]
    ∧ loggers st' = loggers st ∧ stores st' = stores st
    ∧ current st' = current st ∧ outOfContext st' = outOfContext st.
Proof.
  intros Hh.
  destruct m; unfold invoke, LoggerService.verbose, LoggerService.debug,
    LoggerService.log, LoggerService.warn, LoggerService.error,
    LoggerService.fatal, LoggerService.call, PinoLogger.call;
    rewrite Hh; by eexists _, _.
Qed.

Lemma methods_emit_once_witness :
  ∃ args st',
    invoke MVerbose defaultService (VStr "hello") [] outOfRequest
    = (Ok tt, st')
    ∧ emitted st'
      = [{| em_logger := 0; em_level := Level.trace; em_args := args |}].
Proof.
  destruct (methods_emit_once MVerbose defaultService (VStr "hello") []
              outOfRequest 0 eq_refl)
    as (args & st' & Hrun & Hem & _).
  exists args, st'. split; [exact Hrun | exact Hem].
Defined.

(** ** The fallback logger *)

(** X9.  The first construction sets the fallback logger (for every
    configuration but one that passes an [undefined] logger); once it is
    set, a construction with any configuration changes nothing in the
    world, so the first fallback stays. *)
Theorem fallback_first_writer_wins (p1 : Params.Params) (st : State) :
  (Params.isPassedLogger (Params.pinoHttp p1) = true →
   is_Some (PinoLogger.passedLogger (Params.pinoHttp p1))) →
  ∃ this1 st1,
    PinoLogger.constructor p1 st = (Ok this1, st1)
    ∧ is_Some (outOfContext st1)
    ∧ (is_Some (outOfContext st) → st1 = st)
    ∧ ∀ p2, ∃ this2,
        PinoLogger.constructor p2 st1 = (Ok this2, st1)
        ∧ PinoLogger.context this2 = "".
Proof.
  intros Hp.
  destruct (constructor_sets_fallback p1 st Hp)
    as (this1 & st1 & Hrun & Hset & _).
  exists this1, st1. split; [exact Hrun | ]. split; [exact Hset | ].
  assert (Hkeep : ∀ p s, is_Some (outOfContext s) →
            PinoLogger.constructor p s
            = (Ok {| PinoLogger.context := "";
                     PinoLogger.contextName := Params.contextNameOf p;
                     PinoLogger.errorKey :=
                       PinoLogger.errorKeyOf (Params.pinoHttp p) |}, s)).
  { intros p s Hs.
    unfold PinoLogger.constructor, bind, PinoLogger.initOutOfContext.
    by rewrite bool_decide_eq_true_2. }
  split.
  - intros Hs. rewrite (Hkeep p1 st Hs) in Hrun. by simplify_eq.
  - intros p2. eexists. by rewrite (Hkeep p2 st1 Hset).
Qed.

Lemma fallback_first_writer_wins_witness :
  ∃ this1 st1,
    PinoLogger.constructor defaultParams initial = (Ok this1, st1)
    ∧ is_Some (outOfContext st1)
    ∧ ∃ this2,
        PinoLogger.constructor undefinedLoggerParams st1 = (Ok this2, st1).
Proof.
  destruct (fallback_first_writer_wins defaultParams initial
              ltac:(discriminate))
    as (this1 & st1 & Hrun & Hset & _ & Hnext).
  exists this1, st1. split; [exact Hrun | ]. split; [exact Hset | ].
  destruct (Hnext undefinedLoggerParams) as (this2 & Hrun2 & _).
  by exists this2.
Defined.

(** ** Field augmentation over time *)

Lemma getStore_current (st : State) (sid : nat) (store : Store) :
  getStore st = Some (sid, store)
  ↔ current st = Some sid ∧ stores st !! sid = Some store.
Proof.
  unfold getStore. destruct (current st) as [c | ]; simpl.
  - destruct (stores st !! c) eqn:Hc; simpl; split.
    + by intros [= <- <-].
    + intros [[= <-] Hs]. rewrite Hc in Hs. by simplify_eq.
    + done.
    + intros [[= <-] Hs]. rewrite Hc in Hs. done.
  - split; [done | by intros [? _]].
Qed.

(** The state after a successful [assign], spelled out. *)
Lemma assign_active (fields : gmap string value) (st : State) (sid : nat)
    (store : Store) :
  getStore st = Some (sid, store) →
  ∃ st',
    PinoLogger.assign fields st = (Ok tt, st')
    ∧ getStore st'
      = Some (sid, {| logger := fresh (dom (loggers st));
                      responseLogger := responseLogger store |})
    ∧ origin <$> loggers st' !! fresh (dom (loggers st))
      = Some (ChildOf (logger store) fields)
    ∧ outOfContext st' = outOfContext st
    ∧ emitted st' = emitted st
    ∧ (∀ sid', sid' ≠ sid → stores st' !! sid' = stores st !! sid')
    ∧ (∀ l b, loggers st !! l = Some b → responseLogger store ≠ Some l →
         loggers st' !! l = Some b)
    ∧ (∀ r o, responseLogger store = Some r → loggers st !! r = Some o →
         loggers st' !! r = Some (addBindings fields o))
    ∧ (∀ l o, loggers st !! l = Some o →
         origin <$> loggers st' !! l = Some (origin o)).
Proof.
  intros Hs. pose proof Hs as [Hcur _]%getStore_current.
  unfold PinoLogger.assign. rewrite Hs.
  pose proof (fresh_logger st) as Hfresh.
  assert (Hold : ∀ l o, loggers st !! l = Some o →
                        l ≠ fresh (dom (loggers st))).
  { intros l o Hl Heq. rewrite Heq, Hfresh in Hl. done. }
  unfold bind, child, PinoLogger.setStoreLogger, setBindings, ret.
  destruct (responseLogger store) as [r | ] eqn:Hr; simpl;
    (eexists; split; [reflexivity | ]);
    (split; [apply getStore_current; simpl; by rewrite lookup_insert_eq | ]);
    simpl.
  - split.
    { destruct (decide (r = fresh (dom (loggers st)))) as [-> | Hne].
      - by rewrite lookup_alter_eq, lookup_insert_eq.
      - by rewrite lookup_alter_ne, lookup_insert_eq. }
    split; [done | split; [done | split; [ | split; [ | split]]]].
    + intros sid' Hsid. by rewrite lookup_insert_ne.
    + intros l b Hl Hlr.
      rewrite lookup_alter_ne by congruence.
      rewrite lookup_insert_ne; [done | ].
      intros Heq. by apply (Hold l b).
    + intros r' o [= <-] Ho.
      rewrite lookup_alter_eq, lookup_insert_ne, Ho; [done | ].
      intros Heq. by apply (Hold r o).
    + intros l o Hl.
      assert (fresh (dom (loggers st)) ≠ l) as Hne
        by (intros Heq; by apply (Hold l o)).
      destruct (decide (r = l)) as [-> | Hrl].
      * by rewrite lookup_alter_eq, lookup_insert_ne, Hl.
      * by rewrite lookup_alter_ne, lookup_insert_ne, Hl.
  - rewrite lookup_insert_eq.
    split; [done | split; [done | split; [done | split; [ | split; [ | split]]]]].
    + intros sid' Hsid. by rewrite lookup_insert_ne.
    + intros l b Hl _. rewrite lookup_insert_ne; [done | ].
      intros Heq. by apply (Hold l b).
    + done.
    + intros l o Hl. rewrite lookup_insert_ne, Hl; [done | ].
      intros Heq. by apply (Hold l o).
Qed.

(** X10.  Two field augmentations in a row both succeed and make two new
    logger objects: the logger of the store is then the child that the
    second call derived, with its fields, from the child that the first
    call derived, with its fields, from the logger the request started
    with; the response logger of the store is the same object as before
    and got the two [setBindings] calls in that order. *)
Theorem assign_twice (f1 f2 : gmap string value) (st : State) (sid : nat)
    (store : Store) :
  getStore st = Some (sid, store) →
  ∃ st1 st2 l1 l2,
    PinoLogger.assign f1 st = (Ok tt, st1)
    ∧ PinoLogger.assign f2 st1 = (Ok tt, st2)
    ∧ getStore st2
      = Some (sid, {| logger := l2;
                      responseLogger := responseLogger store |})
    ∧ loggers st !! l1 = None
    ∧ loggers st !! l2 = None
    ∧ l1 ≠ l2
    ∧ origin <$> loggers st2 !! l2 = Some (ChildOf l1 f2)
    ∧ origin <$> loggers st2 !! l1 = Some (ChildOf (logger store) f1)
    ∧ (∀ r o, responseLogger store = Some r → loggers st !! r = Some o →
         loggers st2 !! r
         = Some {| origin := origin o;
                   bindingsSet := bindingsSet o ++ [f1; f2] |}).
Proof.
  intros Hs.
  destruct (assign_active f1 st sid store Hs)
    as (st1 & Hrun1 & Hs1 & Ho1 & _ & _ & _ & _ & Hres1 & Hkeep1).
  destruct (assign_active f2 st1 sid _ Hs1)
    as (st2 & Hrun2 & Hs2 & Ho2 & _ & _ & _ & _ & Hres2 & Hkeep2).
  simpl in Ho2, Hres2.
  destruct (loggers st1 !! fresh (dom (loggers st))) as [o1 | ] eqn:Hl1;
    [ | done].
  simpl in Ho1. injection Ho1 as Ho1.
  exists st1, st2, (fresh (dom (loggers st))), (fresh (dom (loggers st1))).
  split; [done | split; [done | split; [done | ]]].
  split; [apply fresh_logger | ].
  assert (Hl2 : loggers st !! fresh (dom (loggers st1)) = None).
  { destruct (loggers st !! fresh (dom (loggers st1))) as [o | ] eqn:Ho;
      [ | done].
    apply Hkeep1 in Ho. rewrite fresh_logger in Ho. done. }
  split; [exact Hl2 | ]. split.
  { intros Heq. rewrite Heq, fresh_logger in Hl1. done. }
  split; [exact Ho2 | ]. split.
  { rewrite (Hkeep2 _ _ Hl1). by rewrite Ho1. }
  intros r o Hr Ho.
  rewrite (Hres2 r _ Hr (Hres1 r o Hr Ho)).
  unfold addBindings. simpl. by rewrite <- (assoc_L (++)).
Qed.

Lemma assign_twice_witness :
  ∃ st1 st2 l1 l2,
    PinoLogger.assign {[ "userId" := VNum 42 ]} inRequest = (Ok tt, st1)
    ∧ PinoLogger.assign {[ "userId" := VNum 7 ]} st1 = (Ok tt, st2)
    ∧ origin <$> loggers st2 !! l2
      = Some (ChildOf l1 {[ "userId" := VNum 7 ]})
    ∧ origin <$> loggers st2 !! l1
      = Some (ChildOf 0 {[ "userId" := VNum 42 ]})
    ∧ loggers st2 !! 0
      = Some {| origin := Root;
                bindingsSet := [ {[ "userId" := VNum 42 ]};
                                 {[ "userId" := VNum 7 ]} ] |}.
Proof.
  destruct (assign_twice {[ "userId" := VNum 42 ]} {[ "userId" := VNum 7 ]}
              inRequest 0 {| logger := 0; responseLogger := Some 0 |}
              eq_refl)
    as (st1 & st2 & l1 & l2 & Hrun1 & Hrun2 & _ & _ & _ & _ & Ho2 & Ho1
        & Hres).
  exists st1, st2, l1, l2. split; [exact Hrun1 | ]. split; [exact Hrun2 | ].
  split; [exact Ho2 | ]. split; [exact Ho1 | ].
  exact (Hres 0 (newLogger Root) eq_refl eq_refl).
Defined.

(** X11.  After a field augmentation, a severity method of any facade
    calls the new logger of the store: an object that did not exist
    before, made by [child(fields)] from the former logger of the
    store. *)
Theorem assign_then_log (fields : gmap string value) (st : State)
    (sid : nat) (store : Store) (this : PinoLogger.t) (level : Level.t)
    (args : list value) :
  getStore st = Some (sid, store) →
  ∃ st' l',
    PinoLogger.assign fields st = (Ok tt, st')
    ∧ loggers st !! l' = None
    ∧ PinoLogger.call this level args st'
      = log l' level (PinoLogger.labelArgs this args) st'
    ∧ origin <$> loggers st' !! l' = Some (ChildOf (logger store) fields).
Proof.
  intros Hs.
  destruct (assign_active fields st sid store Hs)
    as (st' & Hrun & Hs' & Hb & _).
  exists st', (fresh (dom (loggers st))).
  split; [done | split; [apply fresh_logger | split]].
  - unfold PinoLogger.call, PinoLogger.logger. by rewrite Hs'.
  - exact Hb.
Qed.

Lemma assign_then_log_witness :
  ∃ st' l',
    PinoLogger.assign {[ "userId" := VNum 42 ]} inRequest = (Ok tt, st')
    ∧ PinoLogger.call appService Level.info [VStr "hello"] st'
      = log l' Level.info
          (PinoLogger.labelArgs appService [VStr "hello"]) st'
    ∧ origin <$> loggers st' !! l'
      = Some (ChildOf 0 {[ "userId" := VNum 42 ]}).
Proof.
  destruct (assign_then_log {[ "userId" := VNum 42 ]} inRequest 0
              {| logger := 0; responseLogger := Some 0 |}
              appService Level.info [VStr "hello"] eq_refl)
    as (st' & l' & Hrun & _ & Hcall & Hb).
  exists st', l'. split; [exact Hrun | ]. split; [exact Hcall | ].
  exact Hb.
Defined.

(** ** The binding middleware *)

Lemma last_option_snoc (l : list nat) (x : nat) : last (l ++ [x]) = Some x.
Proof.
  induction l as [ | y l IH]; [done | ].
  destruct l; [done | ]. exact IH.
Qed.

(** X12.  The store built for a request: with [useExisting] the request
    logger is the one given on the request, whatever [allLogs] holds;
    without it, the last logger of [allLogs] when the request has that
    list, else the one on the request.  The response logger is absent
    without [assignResponse]; with it, it is the last logger of the
    response's [allLogs] when [useExisting] is off and the list is
    there, else the one on the response. *)
Theorem store_selection (assignResponse : bool)
    (req res : LoggerModule.Logged) :
  (LoggerModule.storeFor true assignResponse req res
   = Some (LoggerModule.log req,
           if assignResponse then Some (LoggerModule.log res) else None))
  ∧ (∀ prior x, LoggerModule.allLogs req = Some (prior ++ [x]) →
       fst <$> LoggerModule.storeFor false assignResponse req res = Some x)
  ∧ (LoggerModule.allLogs req = None →
       fst <$> LoggerModule.storeFor false assignResponse req res
       = Some (LoggerModule.log req))
  ∧ (∀ useExisting l r,
       LoggerModule.storeFor useExisting false req res = Some (l, r) →
       r = None)
  ∧ (∀ prior y l r,
       LoggerModule.allLogs res = Some (prior ++ [y]) →
       LoggerModule.storeFor false true req res = Some (l, r) →
       r = Some y)
  ∧ (∀ l r,
       LoggerModule.allLogs res = None →
       LoggerModule.storeFor false true req res = Some (l, r) →
       r = Some (LoggerModule.log res)).
Proof.
  unfold LoggerModule.storeFor. repeat split.
  - destruct (LoggerModule.allLogs req), (LoggerModule.allLogs res),
      assignResponse; done.
  - intros prior x ->. simpl. by rewrite last_option_snoc.
  - by intros ->.
  - intros useExisting l r. simpl.
    destruct (LoggerModule.allLogs res);
      repeat case_match; by intros [= _ <-].
  - intros prior y l r ->. simpl. rewrite last_option_snoc.
    repeat case_match; by intros [= _ <-].
  - intros l r ->. simpl. repeat case_match; by intros [= _ <-].
Qed.

Lemma store_selection_witness :
  fst <$> LoggerModule.storeFor false true
            {| LoggerModule.log := 1; LoggerModule.allLogs := Some [1; 2] |}
            {| LoggerModule.log := 3; LoggerModule.allLogs := None |}
  = Some 2.
Proof.
  exact (proj1 (proj2 (store_selection true
           {| LoggerModule.log := 1; LoggerModule.allLogs := Some [1; 2] |}
           {| LoggerModule.log := 3; LoggerModule.allLogs := None |}))
           [1] 2 eq_refl).
Defined.

(** X13.  A severity method called inside the middleware reaches the
    logger chosen for the request, and the same method called after the
    middleware, outside any request, reaches the fallback logger. *)
Theorem request_scoped_call (useExisting assignResponse : bool)
    (req res : LoggerModule.Logged) (l : nat) (resLog : option nat)
    (this : PinoLogger.t) (level : Level.t) (args : list value)
    (st : State) (h : nat) :
  LoggerModule.storeFor useExisting assignResponse req res
  = Some (l, resLog) →
  current st = None → outOfContext st = Some h →
  ∃ m st1 st2,
    LoggerModule.bindLoggerMiddleware useExisting assignResponse req res
      (PinoLogger.call this level args) = Some m
    ∧ m st = (Ok tt, st1)
    ∧ PinoLogger.call this level args st1 = (Ok tt, st2)
    ∧ em_logger <$> emitted st2 = (em_logger <$> emitted st) ++ [l; h]
    ∧ current st2 = None.
Proof.
  intros Hsel Hcur Hooc.
  unfold LoggerModule.bindLoggerMiddleware. rewrite Hsel.
  eexists _, _, _. split; [reflexivity | ].
  unfold bind, newStore, run, PinoLogger.call, PinoLogger.logger, getStore.
  simpl. rewrite lookup_insert_eq. simpl. split; [reflexivity | ].
  rewrite Hcur. simpl. rewrite Hooc. split; [reflexivity | ]. simpl.
  split; [ | done]. rewrite !fmap_app. simpl. by rewrite <- app_assoc.
Qed.

Lemma request_scoped_call_witness :
  ∃ m st1 st2,
    LoggerModule.bindLoggerMiddleware false false
      {| LoggerModule.log := 1; LoggerModule.allLogs := Some [1; 2] |}
      {| LoggerModule.log := 1; LoggerModule.allLogs := None |}
      (PinoLogger.call appService Level.info [VStr "hello"]) = Some m
    ∧ m outOfRequest = (Ok tt, st1)
    ∧ PinoLogger.call appService Level.info [VStr "hello"] st1 = (Ok tt, st2)
    ∧ em_logger <$> emitted st2 = [2; 0].
Proof.
  destruct (request_scoped_call false false
              {| LoggerModule.log := 1; LoggerModule.allLogs := Some [1; 2] |}
              {| LoggerModule.log := 1; LoggerModule.allLogs := None |}
              2 None appService Level.info [VStr "hello"] outOfRequest 0
              eq_refl eq_refl eq_refl)
    as (m & st1 & st2 & Hm & Hrun1 & Hrun2 & Hem & _).
  exists m, st1, st2. split; [exact Hm | ]. split; [exact Hrun1 | ].
  split; [exact Hrun2 | exact Hem].
Defined.

(** X14.  A field augmentation made inside the middleware stays in its
    request: when the middleware is done the active store, the fallback
    and the calls made are what they were, every store that existed is
    unchanged, and so is every logger object that existed, the request's
    own response logger apart. *)
Theorem assign_confined_to_request (useExisting assignResponse : bool)
    (req res : LoggerModule.Logged) (l : nat) (resLog : option nat)
    (fields : gmap string value) (st : State) :
  LoggerModule.storeFor useExisting assignResponse req res
  = Some (l, resLog) →
  ∃ m st',
    LoggerModule.bindLoggerMiddleware useExisting assignResponse req res
      (PinoLogger.assign fields) = Some m
    ∧ m st = (Ok tt, st')
    ∧ current st' = current st
    ∧ outOfContext st' = outOfContext st
    ∧ emitted st' = emitted st
    ∧ (∀ sid s, stores st !! sid = Some s → stores st' !! sid = Some s)
    ∧ (∀ l0 b, loggers st !! l0 = Some b → resLog ≠ Some l0 →
         loggers st' !! l0 = Some b).
Proof.
  intros Hsel.
  assert (Hsid : stores st !! fresh (dom (stores st)) = None).
  { apply (not_elem_of_dom (D := gset nat)). apply is_fresh. }
  destruct (assign_active fields
              (setCurrent (Some (fresh (dom (stores st))))
                 (setStores (<[fresh (dom (stores st))
                               := {| logger := l; responseLogger := resLog |}]>
                               (stores st)) st))
              (fresh (dom (stores st)))
              {| logger := l; responseLogger := resLog |})
    as (st' & Hrun & _ & _ & Hooc & Hem & Hstores & Hlog & _).
  { apply getStore_current. simpl. by rewrite lookup_insert_eq. }
  unfold LoggerModule.bindLoggerMiddleware. rewrite Hsel.
  eexists. exists (setCurrent (current st) st'). split; [reflexivity | ].
  split.
  { unfold bind, newStore, run. by rewrite Hrun. }
  simpl. split; [done | split; [done | split; [done | split]]].
  - intros sid' s Hs. rewrite Hstores by congruence.
    simpl. rewrite lookup_insert_ne by congruence. done.
  - intros l0 b Hl0 Hne. by apply Hlog.
Qed.

Lemma assign_confined_to_request_witness :
  ∃ m st',
    LoggerModule.bindLoggerMiddleware false true
      {| LoggerModule.log := 0; LoggerModule.allLogs := None |}
      {| LoggerModule.log := 0; LoggerModule.allLogs := None |}
      (PinoLogger.assign {[ "userId" := VNum 42 ]}) = Some m
    ∧ m outOfRequest = (Ok tt, st')
    ∧ current st' = None
    ∧ outOfContext st' = Some 0.
Proof.
  destruct (assign_confined_to_request false true
              {| LoggerModule.log := 0; LoggerModule.allLogs := None |}
              {| LoggerModule.log := 0; LoggerModule.allLogs := None |}
              0 (Some 0) {[ "userId" := VNum 42 ]} outOfRequest eq_refl)
    as (m & st' & Hm & Hrun & Hcur & Hooc & _).
  exists m, st'. split; [exact Hm | ]. split; [exact Hrun | ].
  split; [exact Hcur | exact Hooc].
Defined.

(** ** The registry and its providers *)

Lemma Set_add_prefix (x : string) (s : list string) :
  s `prefix_of` Set_add x s.
Proof.
  unfold Set_add. case_decide; [done | by apply prefix_app_r].
Qed.

Lemma registerAll_prefix (labels s : list string) :
  s `prefix_of` registerAll labels s.
Proof.
  revert s. induction labels as [ | L labels IH]; intros s; [done | ].
  simpl. etrans; [apply (Set_add_prefix L) | apply IH].
Qed.

(** X15.  The providers built from the registry have pairwise distinct
    tokens, whatever was registered and how often. *)
Theorem provider_tokens_distinct (labels : list string) :
  NoDup (provide <$> createProvidersForDecorated (registerAll labels [])).
Proof.
  unfold createProvidersForDecorated.
  rewrite <- list_fmap_compose.
  apply (NoDup_fmap_2_strong _).
  - intros x y _ _ Heq. by apply getLoggerToken_inj.
  - apply registerAll_NoDup, NoDup_nil_2.
Qed.

(** X16.  There is a provider under the token of a label exactly when
    the label was registered, and there are as many providers as
    distinct labels registered. *)
Theorem providers_match_labels (labels : list string) :
  (∀ L, getLoggerToken L
          ∈ provide <$> createProvidersForDecorated (registerAll labels [])
        ↔ L ∈ labels)
  ∧ length (createProvidersForDecorated (registerAll labels []))
    = length (remove_dups labels).
Proof.
  unfold createProvidersForDecorated. split.
  - intros L. rewrite <- list_fmap_compose, list_elem_of_fmap. split.
    + intros (c & Htok & Hc). simpl in Htok.
      apply getLoggerToken_inj in Htok as ->.
      apply registerAll_elem in Hc as [? | ?%elem_of_nil]; done.
    + intros HL. exists L. split; [done | ].
      apply registerAll_elem. by left.
  - rewrite length_fmap. apply Permutation_length, NoDup_Permutation.
    + apply registerAll_NoDup, NoDup_nil_2.
    + apply NoDup_remove_dups.
    + intros x. rewrite registerAll_elem, elem_of_remove_dups, elem_of_nil.
      tauto.
Qed.

(** X17.  The registry only grows at its end: the labels it had keep
    their places, and registering labels that are all known changes
    nothing. *)
Theorem registry_append_only (labels s : list string) :
  s `prefix_of` registerAll labels s
  ∧ ((∀ L, L ∈ labels → L ∈ s) → registerAll labels s = s).
Proof.
  split; [apply registerAll_prefix | ].
  revert s. induction labels as [ | L labels IH]; intros s Hs; [done | ].
  simpl. unfold Set_add. rewrite decide_True by (apply Hs; left).
  apply IH. intros L' HL'. apply Hs. by right.
Qed.

Lemma registry_append_only_witness :
  registerAll ["AppService"; "UserService"] ["UserService"; "AppService"]
  = ["UserService"; "AppService"].
Proof.
  apply (proj2 (registry_append_only ["AppService"; "UserService"]
                  ["UserService"; "AppService"])).
  intros L HL. apply elem_of_cons in HL as [-> | HL].
  - apply elem_of_cons. right. apply elem_of_cons. left. reflexivity.
  - apply elem_of_cons in HL as [-> | HL%elem_of_nil]; [ | destruct HL].
    apply elem_of_cons. left. reflexivity.
Defined.

(** ** The error interceptor *)

(** X18.  The interceptor passes a completed stream on and leaves the
    response alone.  On an error it fails with the same error, after
    putting it on the raw response when the response has one, and then
    not on the response itself, else on the response; intercepting the
    same error again changes nothing more. *)
Theorem interceptor_attaches_error {A : Type}
    (response : LoggerErrorInterceptor.Response)
    (handled : LoggerErrorInterceptor.Outcome A) :
  (LoggerErrorInterceptor.intercept response handled).1 = handled
  ∧ (∀ a, handled = LoggerErrorInterceptor.Completed a →
       (LoggerErrorInterceptor.intercept response handled).2 = response)
  ∧ (∀ e, handled = LoggerErrorInterceptor.Failed e →
       match LoggerErrorInterceptor.raw response with
       | Some _ =>
           LoggerErrorInterceptor.raw
             (LoggerErrorInterceptor.intercept response handled).2
           = Some {| LoggerErrorInterceptor.raw_err := e |}
           ∧ LoggerErrorInterceptor.err
               (LoggerErrorInterceptor.intercept response handled).2
             = LoggerErrorInterceptor.err response
       | None =>
           LoggerErrorInterceptor.raw
             (LoggerErrorInterceptor.intercept response handled).2 = None
           ∧ LoggerErrorInterceptor.err
               (LoggerErrorInterceptor.intercept response handled).2 = e
       end)
  ∧ LoggerErrorInterceptor.intercept
      (LoggerErrorInterceptor.intercept response handled).2 handled
    = LoggerErrorInterceptor.intercept response handled.
Proof.
  destruct handled as [a | e]; simpl.
  - repeat split; done.
  - split; [done | split; [done | split]].
    + intros e' [= <-]. unfold LoggerErrorInterceptor.attach.
      by destruct (LoggerErrorInterceptor.raw response).
    + unfold LoggerErrorInterceptor.attach.
      by destruct (LoggerErrorInterceptor.raw response).
Qed.

Lemma interceptor_attaches_error_witness :
  LoggerErrorInterceptor.raw
    (LoggerErrorInterceptor.intercept
       {| LoggerErrorInterceptor.raw :=
            Some {| LoggerErrorInterceptor.raw_err := VUndefined |};
          LoggerErrorInterceptor.err := VUndefined |}
       (LoggerErrorInterceptor.Failed (A := unit) (VErr "boom" VUndefined))).2
  = Some {| LoggerErrorInterceptor.raw_err := VErr "boom" VUndefined |}
  ∧ LoggerErrorInterceptor.err
      (LoggerErrorInterceptor.intercept
         {| LoggerErrorInterceptor.raw :=
              Some {| LoggerErrorInterceptor.raw_err := VUndefined |};
            LoggerErrorInterceptor.err := VUndefined |}
         (LoggerErrorInterceptor.Failed (A := unit)
            (VErr "boom" VUndefined))).2
    = VUndefined.
Proof.
  exact (proj1 (proj2 (proj2 (interceptor_attaches_error
           {| LoggerErrorInterceptor.raw :=
                Some {| LoggerErrorInterceptor.raw_err := VUndefined |};
              LoggerErrorInterceptor.err := VUndefined |}
           (LoggerErrorInterceptor.Failed (A := unit)
              (VErr "boom" VUndefined)))))
           (VErr "boom" VUndefined) eq_refl).
Defined.

(** ** The web client *)

(** X19.  In the options given to [fetch], every option of the caller is
    passed as it is, [headers] included: the headers with the default
    [Content-Type] are used only when the caller's options have no
    [headers] key. *)
Theorem caller_options_win (options : gmap string value) (k : string) :
  WebApi.defaultOptions options !! k
  = match options !! k with
    | Some v => Some v
    | None =>
        if decide (k = "headers")
        then Some (VObj {[ "Content-Type" := VStr "application/json" ]})
        else None
    end.
Proof.
  unfold WebApi.defaultOptions. rewrite lookup_assign. simpl.
  destruct (options !! k) eqn:Hk; [done | ].
  case_decide as Hh.
  - subst k. rewrite Hk. simpl. rewrite lookup_singleton_eq.
    unfold Object_assign. simpl. by rewrite (left_id_L ∅ (∪)).
  - by apply lookup_singleton_ne.
Qed.

(** X20.  The answer of [createApiRequest] has data and no error when
    it succeeded, an error and no data when it failed.  It succeeded
    exactly when [fetch] gave a response that is [ok] and whose text
    could be read; the data is then the parsed text, or the text itself
    when it is no JSON.  A response that is not [ok] gives the error
    ["HTTP error! status: "] followed by the status. *)
Theorem api_response_well_formed
    (fetch : string → gmap string value
             → WebApi.Completion WebApi.HttpResponse)
    (JSON_parse : string → option value)
    (env : option string) (endpoint : string)
    (options : gmap string value) :
  (WebApi.success
     (WebApi.createApiRequest fetch JSON_parse env endpoint options) = true
   ↔ ∃ resp body,
       fetch (WebApi.API_BASE_URL env ++ endpoint)%string
             (WebApi.defaultOptions options) = WebApi.Normal resp
       ∧ WebApi.ok resp = true ∧ WebApi.text resp = WebApi.Normal body
       ∧ WebApi.createApiRequest fetch JSON_parse env endpoint options
         = {| WebApi.success := true;
              WebApi.data := Some (default (VStr body) (JSON_parse body));
              WebApi.error := None |})
  ∧ (WebApi.success
       (WebApi.createApiRequest fetch JSON_parse env endpoint options) = false
     → WebApi.data
         (WebApi.createApiRequest fetch JSON_parse env endpoint options)
       = None
       ∧ is_Some (WebApi.error
           (WebApi.createApiRequest fetch JSON_parse env endpoint options)))
  ∧ (∀ resp,
       fetch (WebApi.API_BASE_URL env ++ endpoint)%string
             (WebApi.defaultOptions options) = WebApi.Normal resp →
       WebApi.ok resp = false →
       WebApi.createApiRequest fetch JSON_parse env endpoint options
       = {| WebApi.success := false; WebApi.data := None;
            WebApi.error :=
              Some ("HTTP error! status: " ++ pretty (WebApi.status resp))%string |}).
Proof.
  unfold WebApi.createApiRequest, WebApi.tryRequest.
  destruct (fetch _ _) as [resp | e] eqn:Hf.
  - destruct (WebApi.ok resp) eqn:Hok; simpl.
    + destruct (WebApi.text resp) as [body | e] eqn:Ht.
      * destruct (JSON_parse body) eqn:Hj; simpl;
          (split; [ | split; [done | by intros ? [= <-]; congruence]]);
          (split; [intros _ | done]);
          exists resp, body; by rewrite Hj.
      * simpl. split; [ | split; [by eauto | intros ? [= <-]; congruence]].
        split; [done | ]. intros (? & ? & [= <-] & _ & ? & _). congruence.
    + split; [ | split; [by eauto | by intros ? [= <-] _]].
      split; [done | ]. intros (? & ? & [= <-] & ? & _). congruence.
  - simpl. split; [ | split; [by eauto | done]].
    split; [done | ]. by intros (? & ? & ? & _).
Qed.

Lemma orString_nonempty (s : option string) (fallback : string) :
  fallback ≠ "" → WebApi.orString s fallback ≠ "".
Proof.
  intros Hf. unfold WebApi.orString. destruct s as [x | ]; [ | done].
  destruct (String.eqb_spec x ""); done.
Qed.

(** X21.  [getHelloRaw] returns a value exactly when the answer
    succeeded with data that counts as true, and that value is the data;
    otherwise it throws an exception whose message is never empty.  In
    particular an [ok] response whose text is empty makes it throw,
    with the message for a failed request. *)
Theorem hello_raw_outcome
    (fetch : string → gmap string value
             → WebApi.Completion WebApi.HttpResponse)
    (JSON_parse : string → option value) (env : option string) :
  (∀ v, WebApi.getHelloRaw fetch JSON_parse env = WebApi.Normal v
        ↔ WebApi.success (WebApi.getHello fetch JSON_parse env) = true
          ∧ WebApi.data (WebApi.getHello fetch JSON_parse env) = Some v
          ∧ WebApi.truthy v = true)
  ∧ (∀ e, WebApi.getHelloRaw fetch JSON_parse env = WebApi.Thrown e →
          ∃ m, e = WebApi.newError m ∧ m ≠ "")
  ∧ (∀ resp,
       fetch (WebApi.API_BASE_URL env ++ "/hello")%string
             (WebApi.defaultOptions ∅) = WebApi.Normal resp →
       WebApi.ok resp = true → WebApi.text resp = WebApi.Normal "" →
       JSON_parse "" = None →
       WebApi.getHelloRaw fetch JSON_parse env
       = WebApi.Thrown (WebApi.newError "获取hello信息失败")).
Proof.
  split; [ | split].
  - intros v. unfold WebApi.getHelloRaw.
    destruct (WebApi.success _) eqn:Hs; simpl.
    + destruct (WebApi.data _) as [d | ] eqn:Hd; simpl.
      * destruct (WebApi.truthy d) eqn:Ht; split.
        -- by intros [= <-].
        -- by intros (_ & [= <-] & _).
        -- done.
        -- intros (_ & [= <-] & ?). congruence.
      * split; [done | by intros (_ & ? & _)].
    + split; [done | by intros (? & _)].
  - intros e. unfold WebApi.getHelloRaw.
    destruct (_ && _); [done | ]. intros [= <-].
    eexists. split; [reflexivity | ]. by apply orString_nonempty.
  - intros resp Hf Hok Ht Hj.
    unfold WebApi.getHelloRaw, WebApi.getHello, WebApi.createApiRequest,
      WebApi.tryRequest.
    by rewrite Hf, Hok, Ht, Hj.
Qed.

(** ** The hook state *)

(** X22.  [execute] first shows the loading state, with the former data
    kept and the error cleared, and ends in a state that is not loading
    and never has both data and an error; the data it ends with counts
    as true; a failed answer ends with an error message that is not
    empty; and [reset] gives the initial state. *)
Theorem execute_settles (outcome : WebApi.Completion WebApi.ApiResponse)
    (prev : UseApi.UseApiState) :
  ∃ s1 s2,
    UseApi.execute outcome prev = [s1; s2]
    ∧ UseApi.loading s1 = true
    ∧ UseApi.data s1 = UseApi.data prev
    ∧ UseApi.error s1 = None
    ∧ UseApi.loading s2 = false
    ∧ (UseApi.data s2 = None ∨ UseApi.error s2 = None)
    ∧ (∀ v, UseApi.data s2 = Some v → WebApi.truthy v = true)
    ∧ (∀ r, outcome = WebApi.Normal r → WebApi.success r = false →
         ∃ m, UseApi.error s2 = Some m ∧ m ≠ "")
    ∧ UseApi.reset s2 = UseApi.initialState.
Proof.
  eexists _, _. split; [reflexivity | ]. simpl.
  split; [done | split; [done | split; [done | ]]].
  unfold UseApi.finish.
  destruct outcome as [r | e]; simpl.
  - destruct (WebApi.success r) eqn:Hs; simpl.
    + split; [done | split; [by right | split; [ | split; [ | done]]]].
      * intros v. unfold UseApi.dataOrNull.
        destruct (WebApi.data r) as [d | ]; [ | done].
        destruct (WebApi.truthy d) eqn:Ht; [ | done]. by intros [= <-].
      * intros r' [= <-]. congruence.
    + split; [done | split; [by left | split; [done | split; [ | done]]]].
      intros r' [= <-] _. eexists. split; [reflexivity | ].
      by apply orString_nonempty.
  - split; [done | split; [by left | split; [done | split; [ | done]]]].
    by intros r [=].
Qed.

(** A platform whose [fetch] answers 404, and one whose [fetch] answers
    with an empty text; neither text is JSON. *)
Lemma api_response_well_formed_witness :
  WebApi.createApiRequest
    (fun _ _ => WebApi.Normal {| WebApi.ok := false; WebApi.status := 404;
                                 WebApi.text := WebApi.Normal "" |})
    (fun _ => None) None "/hello" ∅
  = {| WebApi.success := false; WebApi.data := None;
       WebApi.error := Some "HTTP error! status: 404" |}.
Proof.
  exact (proj2 (proj2 (api_response_well_formed
           (fun _ _ => WebApi.Normal
                         {| WebApi.ok := false; WebApi.status := 404;
                            WebApi.text := WebApi.Normal "" |})
           (fun _ => None) None "/hello" ∅))
           {| WebApi.ok := false; WebApi.status := 404;
              WebApi.text := WebApi.Normal "" |} eq_refl eq_refl).
Defined.

Lemma hello_raw_outcome_witness :
  WebApi.getHelloRaw
    (fun _ _ => WebApi.Normal {| WebApi.ok := true; WebApi.status := 200;
                                 WebApi.text := WebApi.Normal "" |})
    (fun _ => None) None
  = WebApi.Thrown (WebApi.newError "获取hello信息失败").
Proof.
  exact (proj2 (proj2 (hello_raw_outcome
           (fun _ _ => WebApi.Normal
                         {| WebApi.ok := true; WebApi.status := 200;
                            WebApi.text := WebApi.Normal "" |})
           (fun _ => None) None))
           {| WebApi.ok := true; WebApi.status := 200;
              WebApi.text := WebApi.Normal "" |}
           eq_refl eq_refl eq_refl eq_refl).
Defined.

Lemma execute_settles_witness :
  ∃ s1 s2,
    UseApi.execute
      (WebApi.Normal {| WebApi.success := false; WebApi.data := None;
                        WebApi.error := None |})
      UseApi.initialState = [s1; s2]
    ∧ ∃ m, UseApi.error s2 = Some m ∧ m ≠ "".
Proof.
  destruct (execute_settles
              (WebApi.Normal {| WebApi.success := false; WebApi.data := None;
                                WebApi.error := None |})
              UseApi.initialState)
    as (s1 & s2 & Hexec & _ & _ & _ & _ & _ & _ & Herr & _).
  exists s1, s2. split; [exact Hexec | ].
  exact (Herr _ eq_refl eq_refl).
Defined.
